(** * StreamAlert alert processor: the output base class

    A shallow embedding of [stream_alert/alert_processor/output_base.py]
    (Python 2) and the properties of its credential resolution, naming
    helpers and HTTP helper.

    Conventions of the embedding:
    - a Python [str] is a [string]; a [dict] with string keys is a
      [gmap string _]; an [OrderedDict] is an association list;
    - [None] results are [option] values, Python truthiness is written out;
    - the file system, the log, S3 and KMS are explicit state and oracles,
      threaded through a state-and-exception monad. *)

From Stdlib Require Import ZArith Ascii DecimalString.
From stdpp Require Import base option list strings gmap fin_maps.

Local Open Scope Z_scope.

(** ** Python strings *)

Module PyStr.

(** [s.replace(old, new)] for a non-empty [old]: scan left to right; at a
    position where [old] starts, emit [new] and jump over [old]. [skip] is
    the number of characters of a matched [old] still to jump over. *)
Fixpoint replace_from (old new : string) (skip : nat) (s : string) : string :=
  match s with
  | EmptyString => EmptyString
  | String c s' =>
      match skip with
      | S k => replace_from old new k s'
      | O =>
          if String.prefix old s
          then new +:+ replace_from old new (String.length old - 1) s'
          else String c (replace_from old new 0 s')
      end
  end.

(** With an empty [old], Python puts [new] before every character and at
    the end. *)
Fixpoint interleave (new s : string) : string :=
  match s with
  | EmptyString => new
  | String c s' => new +:+ String c (interleave new s')
  end.

(** [s.replace(old, new)]: every non-overlapping occurrence, left to right. *)
Definition replace (old new s : string) : string :=
  match old with
  | EmptyString => interleave new s
  | String _ _ => replace_from old new 0 s
  end.

(** [s.replace(old, new, 1)]: the leftmost occurrence only. *)
Fixpoint replace_first (old new s : string) : string :=
  match s with
  | EmptyString => match old with EmptyString => new | _ => EmptyString end
  | String c s' =>
      if String.prefix old s
      then new +:+ String.substring (String.length old) (String.length s) s
      else String c (replace_first old new s')
  end.

(** [s.endswith(suffix)]. *)
Definition endswith (s suffix : string) : bool :=
  String.prefix (String.rev suffix) (String.rev s).

(** [str(n)] for an integer. *)
Definition of_Z (n : Z) : string := NilZero.string_of_int (Z.to_int n).

(** Character-wise image of a string. *)
Fixpoint map (f : ascii -> ascii) (s : string) : string :=
  match s with
  | EmptyString => EmptyString
  | String c s' => String (f c) (map f s')
  end.

(** Whether no end piece of [tail] is a start of [t]. *)
Fixpoint no_border_from (t tail : string) : bool :=
  match tail with
  | EmptyString => true
  | String _ tail' =>
      negb (String.prefix tail t) && no_border_from t tail'
  end.

(** [c in s]. *)
Fixpoint mem (c : ascii) (s : string) : bool :=
  match s with
  | EmptyString => false
  | String c' s' => if decide (c = c') then true else mem c s'
  end.

End PyStr.

(** ** Class attributes and instances *)

(** A class attribute that is either still the [NotImplemented] sentinel
    of the base class or a string set by a subclass. *)
Inductive pyattr :=
| NotImplemented
| Name (s : string).

#[global] Instance pyattr_eq_dec : EqDecision pyattr.
Proof. solve_decision. Defined.

(** [str(x)] of such an attribute. *)
Definition str (a : pyattr) : string :=
  match a with
  | NotImplemented => "NotImplemented"
  | Name s => s
  end.

(** [OutputProperty = namedtuple('OutputProperty',
      'description, value, is_secret, cred_requirement')]. *)
Record OutputProperty := mkOutputProperty {
  description : string;
  value : string;
  is_secret : bool;
  cred_requirement : bool
}.

(** [OutputProperty.__new__.__defaults__ = ('', '', False, False)]. *)
Definition OutputProperty_default : OutputProperty :=
  {| description := ""; value := ""; is_secret := false;
     cred_requirement := false |}.

#[global] Instance OutputProperty_eq_dec : EqDecision OutputProperty.
Proof. solve_decision. Defined.

(** JSON documents as [json.loads] returns them. *)
#[warnings="-register-all"]
Inductive json :=
| JNull
| JBool (b : bool)
| JNum (n : Z)
| JStr (s : string)
| JArr (l : list json)
| JObj (fields : list (string * json)).

(** A value stored in a credentials dictionary: something parsed from the
    decrypted JSON, or a property put there from the defaults. *)
Inductive pyval :=
| VJson (j : json)
| VProp (p : OutputProperty).

(** What differs between the base class and its subclasses: the two class
    attributes and the overridable [get_default_properties]. The base
    class has [NotImplemented] twice and a method body [pass], which
    returns [None]. *)
Record output_class := mkClass {
  __service__ : pyattr;
  __config_service__ : pyattr;
  get_default_properties : option (list (string * pyval))
}.

Definition StreamOutputBase_class : output_class :=
  {| __service__ := NotImplemented;
     __config_service__ := NotImplemented;
     get_default_properties := None |}.

(** An instance: its class and the two fields [__init__] sets. *)
Record StreamOutputBase := mkOutput {
  cls : output_class;
  region : string;
  s3_prefix : string
}.

Definition suffix_token : string := "_streamalert_alert_processor".

(** [_format_prefix]: two calls of [str.replace]. *)
Definition _format_prefix (s3_prefix : string) : string :=
  let s3_prefix := PyStr.replace suffix_token "" s3_prefix in
  PyStr.replace "_" "." s3_prefix.

Definition __init__ (c : output_class) (region s3_prefix : string)
  : StreamOutputBase :=
  {| cls := c; region := region; s3_prefix := _format_prefix s3_prefix |}.

(** Truthiness of a descriptor: [None] and [''] are false. *)
Definition truthy_str (d : option string) : bool :=
  match d with
  | None => false
  | Some EmptyString => false
  | Some (String _ _) => true
  end.

(** [output_cred_name]. *)
Definition output_cred_name (self : StreamOutputBase)
  (descriptor : option string) : string :=
  let cred_name := str (__service__ (cls self)) in
  if truthy_str descriptor
  then cred_name +:+ "_" +:+ default "" descriptor
  else cred_name.

(** [_format_s3_bucket]: ['.'.join([self.s3_prefix, suffix])]. *)
Definition _format_s3_bucket (self : StreamOutputBase) (suffix : string)
  : string :=
  s3_prefix self +:+ "." +:+ suffix.

Definition get_secrets_bucket_name (self : StreamOutputBase) : string :=
  _format_s3_bucket self "streamalert.secrets".

(** [get_config_service]: the tuple indexed by the comparison. *)
Definition get_config_service (self : StreamOutputBase) : pyattr :=
  if decide (__config_service__ (cls self) = NotImplemented)
  then __service__ (cls self)
  else __config_service__ (cls self).

(** ** Exceptions, results and the state monad *)

Inductive errno := EEXIST | ENOENT | ENOTDIR | EISDIR | EACCES.

Inductive exn :=
| IOError (msg : string)
| OSError (code : errno)
| ClientError (response : string)
| ValueError (msg : string)
| AttributeError (msg : string)
| KeyError (key : string)
| TypeError (msg : string)
| HTTPError (url : string) (code : Z) (body : string)
| URLError (reason : string)
| OtherError (name : string)
| OutputRequestFailure (msg : string).

Inductive res (A : Type) :=
| Ret (a : A)
| Raise (e : exn).
Arguments Ret {A} a.
Arguments Raise {A} e.

(** A computation over a state [S]: it returns or raises, and the effects
    it had before raising stay. *)
Definition M (S A : Type) : Type := S -> res A * S.

Definition ret_M {S A} (a : A) : M S A := fun s => (Ret a, s).

Definition bind_M {S A B} (k : A -> M S B) (m : M S A) : M S B :=
  fun s =>
    match m s with
    | (Ret a, s') => k a s'
    | (Raise e, s') => (Raise e, s')
    end.

Definition raise {S A} (e : exn) : M S A := fun s => (Raise e, s).

(** [try: m except <the exceptions h accepts> as err: h err]. *)
Definition try_except {S A} (m : M S A) (h : exn -> option (M S A)) : M S A :=
  fun s =>
    match m s with
    | (Ret a, s') => (Ret a, s')
    | (Raise e, s') =>
        match h e with
        | Some handler => handler s'
        | None => (Raise e, s')
        end
    end.

Definition get_state {S} : M S S := fun s => (Ret s, s).
Definition modify {S} (f : S -> S) : M S unit := fun s => (Ret tt, f s).

#[global] Instance M_ret {S} : MRet (M S) := @ret_M S.
#[global] Instance M_bind {S} : MBind (M S) := @bind_M S.

(** ** The file system *)

(** An absolute path, as its components from the root; [[]] is the root. *)
Definition path : Type := list string.

(** What can stand at a path: a regular file, a directory, or a symbolic
    link that leads nowhere, its target being neither there nor in a
    directory that is there, so that nothing can be opened or created
    through it. Links to entries that exist are left out. *)
Inductive node :=
| File (content : string)
| Dir
| DanglingLink.

#[global] Instance node_eq_dec : EqDecision node.
Proof. solve_decision. Defined.

Module OS.

(** The entry at a path, a link not followed ([os.lstat]); the root is
    always a directory. *)
Definition lookup_node (fs : gmap path node) (p : path) : option node :=
  match p with
  | [] => Some Dir
  | _ :: _ => fs !! p
  end.

(** What a path leads to, links followed ([os.stat]): a dangling link
    leads to nothing. *)
Definition stat (fs : gmap path node) (p : path) : option node :=
  match lookup_node fs p with
  | Some DanglingLink => None
  | found => found
  end.

(** [os.path.exists] and [os.path.isdir]: both follow links, so a
    dangling link does not exist for them. *)
Definition exists_ (fs : gmap path node) (p : path) : bool :=
  bool_decide (is_Some (stat fs p)).

Definition isdir (fs : gmap path node) (p : path) : bool :=
  bool_decide (stat fs p = Some Dir).

(** [os.path.dirname], on components. *)
Definition parent (p : path) : path := removelast p.

(** The components of a path string: the pieces between slashes, empty
    pieces dropped. [acc] is the piece being read, reversed. *)
Fixpoint components_from (acc : string) (s : string) : list string :=
  let flush := match acc with
               | EmptyString => []
               | String _ _ => [String.rev acc]
               end in
  match s with
  | EmptyString => flush
  | String c s' =>
      if decide (c = "/"%char)
      then flush ++ components_from EmptyString s'
      else components_from (String c acc) s'
  end.

Definition components (s : string) : list string :=
  components_from EmptyString s.

(** [os.path.join(d, name)]: an absolute [name] replaces [d]. The
    components [.] and [..] are kept as names; they are not resolved. *)
Definition join (d : path) (name : string) : path :=
  if String.prefix "/" name then components name else d ++ components name.

End OS.

(** ** The world of the credential store *)

Inductive level := ERROR | INFO.

(** One call of [LOGGER.error] or [LOGGER.info], with its message
    formatted. *)
Record log_record := mkLog { lvl : level; message : string }.

(** The state the credential code reads and writes: the local file system,
    the log, and the requests sent to S3 and KMS so far (newest first);
    and the directories in which the operating system lets the process
    add and remove nothing (its rights, a sticky bit, a volume mounted
    read-only), which the code never changes. *)
Record world := mkWorld {
  fs : gmap path node;
  log : list log_record;
  s3_requests : list (string * string * string);
  kms_requests : list (string * string);
  readonly_dirs : gset path
}.

(** What an S3 download and a KMS decryption answer. *)
Inductive s3_result :=
| S3Body (data : string)
| S3ClientError (response : string).

Inductive kms_result :=
| KmsPlaintext (plaintext : string)
| KmsClientError (response : string).

(** An HTTP response handle: [getcode()], [geturl()], [read()]. *)
Record response := mkResponse {
  getcode : Z;
  geturl : string;
  read : string
}.

(** What [urllib2] itself can raise. *)
Inductive transport_error :=
| TE_HTTPError (url : string) (code : Z) (body : string)
| TE_URLError (reason : string)
| TE_Other (name : string).

Definition exn_of_transport (e : transport_error) : exn :=
  match e with
  | TE_HTTPError u c b => HTTPError u c b
  | TE_URLError r => URLError r
  | TE_Other n => OtherError n
  end.

Inductive urlopen_result :=
| UrlResponse (r : response)
| UrlRaise (e : transport_error).

Inductive verify_mode_t := CERT_NONE | CERT_REQUIRED.

Record SSLContext := mkContext {
  check_hostname : bool;
  verify_mode : verify_mode_t
}.

Record Request := mkRequest {
  req_url : string;
  req_data : string;
  req_headers : list (string * string)
}.

(** The collaborators outside this file: the temporary directory of the
    process, S3 (by region, bucket and key), KMS (by region and
    ciphertext), the JSON parser ([None] stands for its [ValueError]) and
    the HTTP transport. *)
Record services := mkServices {
  gettempdir : path;
  s3_download : string -> string -> string -> s3_result;
  kms_decrypt : string -> string -> kms_result;
  json_loads : string -> option json;
  urlopen : Request -> option SSLContext -> urlopen_result
}.

(** ** File and directory operations *)

Definition set_fs (f : gmap path node -> gmap path node) : M world unit :=
  modify (fun w => mkWorld (f (fs w)) (log w) (s3_requests w) (kms_requests w)
                     (readonly_dirs w)).

Definition os_path_exists (p : path) : M world bool :=
  w ← get_state; mret (OS.exists_ (fs w) p).

Definition os_path_isdir (p : path) : M world bool :=
  w ← get_state; mret (OS.isdir (fs w) p).

(** Whether the operating system refuses to add or remove entries of the
    directory [p] lies in. *)
Definition refused (w : world) (p : path) : bool :=
  bool_decide (OS.parent p ∈ readonly_dirs w).

(** [os.remove]: unlinks a file or a link, when the directory allows it;
    refuses a directory. *)
Definition os_remove (p : path) : M world unit :=
  w ← get_state;
  match OS.lookup_node (fs w) p with
  | None => raise (OSError ENOENT)
  | Some found =>
      if refused w p then raise (OSError EACCES)
      else match found with
           | Dir => raise (OSError EISDIR)
           | File _ | DanglingLink => set_fs (delete p)
           end
  end.

(** [os.mkdir]: nothing may stand at the path, not even a dangling link;
    the parent must be a directory that allows the change. *)
Definition os_mkdir (p : path) : M world unit :=
  w ← get_state;
  if bool_decide (is_Some (OS.lookup_node (fs w) p))
  then raise (OSError EEXIST)
  else match OS.stat (fs w) (OS.parent p) with
       | Some Dir =>
           if refused w p then raise (OSError EACCES)
           else set_fs <[p := Dir]>
       | Some _ => raise (OSError ENOTDIR)
       | None => raise (OSError ENOENT)
       end.

(** [os.makedirs], by recursion on the reversed path: create the missing
    parent first, tolerating that it exists by then, then the entry. *)
Fixpoint makedirs_rev (rp : list string) : M world unit :=
  match rp with
  | [] => os_mkdir []
  | _ :: rhead =>
      head_exists ← os_path_exists (rev rhead);
      (if negb head_exists
       then try_except (makedirs_rev rhead)
              (fun e => match e with
                        | OSError EEXIST => Some (mret tt)
                        | _ => None
                        end)
       else mret tt);;
      os_mkdir (rev rp)
  end.

Definition os_makedirs (p : path) : M world unit := makedirs_rev (rev p).

(** The two modes the code could open a file in. *)
Inductive mode := rb | wb.

Record file := mkFile { f_path : path; f_mode : mode }.

(** [open(p, mode)]: ['wb'] truncates the file, or creates it when the
    directory is there and allows it; ['rb'] needs an existing file.
    Through a dangling link nothing is opened. *)
Definition open (p : path) (m : mode) : M world file :=
  w ← get_state;
  match OS.lookup_node (fs w) p, m with
  | Some Dir, _ => raise (IOError "Is a directory")
  | Some DanglingLink, _ => raise (IOError "No such file or directory")
  | Some (File _), rb => mret (mkFile p rb)
  | Some (File _), wb => set_fs <[p := File ""]>;; mret (mkFile p wb)
  | None, rb => raise (IOError "No such file or directory")
  | None, wb =>
      if OS.isdir (fs w) (OS.parent p)
      then if refused w p then raise (IOError "Permission denied")
           else set_fs <[p := File ""]>;; mret (mkFile p wb)
      else raise (IOError "No such file or directory")
  end.

(** [f.read()]: only a file opened for reading can be read. *)
Definition file_read (f : file) : M world string :=
  match f_mode f with
  | rb =>
      w ← get_state;
      match fs w !! f_path f with
      | Some (File content) => mret content
      | _ => raise (IOError "I/O operation on closed file")
      end
  | wb => raise (IOError "File not open for reading")
  end.

(** [f.write(data)]: appends to what was written since the file was
    opened. *)
Definition file_write (f : file) (data : string) : M world unit :=
  match f_mode f with
  | wb =>
      set_fs (fun m => match m !! f_path f with
                       | Some (File content) =>
                           <[f_path f := File (content +:+ data)]> m
                       | _ => <[f_path f := File data]> m
                       end)
  | rb => raise (IOError "File not open for writing")
  end.

(** [with open(p, mode) as f: body]. Leaving the block closes the file,
    which changes nothing here; an exception of the body goes on. *)
Definition with_open {A} (p : path) (m : mode) (body : file -> M world A)
  : M world A :=
  f ← open p m; body f.

Definition LOGGER_error (msg : string) : M world unit :=
  modify (fun w => mkWorld (fs w) (log w ++ [mkLog ERROR msg])
                     (s3_requests w) (kms_requests w) (readonly_dirs w)).

Definition LOGGER_info (msg : string) : M world unit :=
  modify (fun w => mkWorld (fs w) (log w ++ [mkLog INFO msg])
                     (s3_requests w) (kms_requests w) (readonly_dirs w)).

(** ** The credential store *)

(** Truthiness of a result that is [None] or a [bool]. *)
Definition truthy (r : option bool) : bool := from_option id false r.

Section Credentials.

Variable sv : services.

(** [client.download_fileobj(bucket, key, fileobj)] of an S3 client of a
    region: the request is sent, then the body is written or the client
    error raised. Failures of the transfer that are no client errors are
    left out. *)
Definition download_fileobj (region bucket key : string) (fileobj : file)
  : M world unit :=
  modify (fun w => mkWorld (fs w) (log w)
                     ((region, bucket, key) :: s3_requests w)
                     (kms_requests w) (readonly_dirs w));;
  match s3_download sv region bucket key with
  | S3Body data => file_write fileobj data
  | S3ClientError response => raise (ClientError response)
  end.

(** [client.decrypt(CiphertextBlob=data)['Plaintext']] of a KMS client. *)
Definition client_decrypt (region data : string) : M world string :=
  modify (fun w => mkWorld (fs w) (log w) (s3_requests w)
                     ((region, data) :: kms_requests w) (readonly_dirs w));;
  match kms_decrypt sv region data with
  | KmsPlaintext plaintext => mret plaintext
  | KmsClientError response => raise (ClientError response)
  end.

(** [_local_temp_dir]. *)
Definition temp_dir : path := gettempdir sv ++ ["stream_alert_secrets"].

Definition _local_temp_dir : M world path :=
  let temp_dir := temp_dir in
  present ← os_path_exists temp_dir;
  is_dir ← os_path_isdir temp_dir;
  (if present && negb is_dir then os_remove temp_dir else mret tt);;
  present ← os_path_exists temp_dir;
  (if negb present then os_makedirs temp_dir else mret tt);;
  mret temp_dir.

(** [_get_creds_from_s3]: [True], or [None] after the logged client
    error. *)
Definition _get_creds_from_s3 (self : StreamOutputBase)
  (cred_location : path) (descriptor : option string)
  : M world (option bool) :=
  try_except
    (with_open cred_location wb (fun cred_output =>
       download_fileobj (region self) (get_secrets_bucket_name self)
         (output_cred_name self descriptor) cred_output);;
     mret (Some true))
    (fun err =>
       match err with
       | ClientError response =>
           Some (LOGGER_error
                   ("credentials for " +:+ output_cred_name self descriptor
                    +:+ " could not be downloaded from S3: " +:+ response);;
                 mret None)
       | _ => None
       end).

(** [_kms_decrypt]: the plaintext, or [None] after the logged client
    error. *)
Definition _kms_decrypt (self : StreamOutputBase) (data : string)
  : M world (option string) :=
  try_except
    (plaintext ← client_decrypt (region self) data; mret (Some plaintext))
    (fun err =>
       match err with
       | ClientError response =>
           Some (LOGGER_error
                   ("an error occurred during credentials decryption: "
                    +:+ response);;
                 mret None)
       | _ => None
       end).

(** What [_load_creds] hands back: the credentials dictionary, or the
    parsed document itself when that is not a JSON object. *)
Inductive pyobj :=
| PDict (d : gmap string pyval)
| PJson (j : json).

(** A JSON object becomes a [dict]; of a repeated key the last value
    stays. *)
Definition of_json (j : json) : pyobj :=
  match j with
  | JObj fields =>
      PDict (list_to_map (reverse (prod_map id VJson <$> fields)))
  | _ => PJson j
  end.

(** [d.update(other)]: the items of [other] are stored one after the
    other. *)
Definition dict_update (d : gmap string pyval)
  (other : list (string * pyval)) : gmap string pyval :=
  foldl (fun acc kv => <[kv.1 := kv.2]> acc) d other.

(** Truthiness of what [get_default_properties] returns: [None] and an
    empty mapping are false. *)
Definition truthy_defaults (defaults : option (list (string * pyval)))
  : bool :=
  match defaults with
  | Some (_ :: _) => true
  | _ => false
  end.

(** The name of the type of what [json.loads] makes of a document (on a
    build whose [int] has 64 bits; an object is a [dict]). *)
Definition type_name (j : json) : string :=
  match j with
  | JNull => "NoneType"
  | JBool _ => "bool"
  | JNum n =>
      if bool_decide (- 2 ^ 63 <= n < 2 ^ 63) then "int" else "long"
  | JStr _ => "unicode"
  | JArr _ => "list"
  | JObj _ => "dict"
  end.

(** Lines 100 to 105 of [_load_creds]: the defaults go over the parsed
    document. What has no [update] fails with the message Python makes
    for it. *)
Definition add_defaults {S} (self : StreamOutputBase) (creds_dict : pyobj)
  : M S pyobj :=
  let defaults := get_default_properties (cls self) in
  if truthy_defaults defaults then
    match creds_dict with
    | PDict d => mret (PDict (dict_update d (default [] defaults)))
    | PJson j =>
        raise (AttributeError
                 ("'" +:+ type_name j
                  +:+ "' object has no attribute 'update'"))
    end
  else mret creds_dict.

(** Lines 89 to 105 of [_load_creds]: what happens once the blob is
    thought to be on disk. *)
Definition load_cached (self : StreamOutputBase)
  (local_cred_location : path) : M world (option pyobj) :=
  enc_creds ← with_open local_cred_location wb file_read;
  decrypted_creds ← _kms_decrypt self enc_creds;
  if negb (truthy_str decrypted_creds) then mret None
  else
    match json_loads sv (default "" decrypted_creds) with
    | None => raise (ValueError "No JSON object could be decoded")
    | Some j =>
        creds_dict ← add_defaults self (of_json j);
        mret (Some creds_dict)
    end.

(** [_load_creds]. *)
Definition _load_creds (self : StreamOutputBase)
  (descriptor : option string) : M world (option pyobj) :=
  temp_dir ← _local_temp_dir;
  let local_cred_location :=
    OS.join temp_dir (output_cred_name self descriptor) in
  cached ← os_path_exists local_cred_location;
  if negb cached then
    fetched ← _get_creds_from_s3 self local_cred_location descriptor;
    if negb (truthy fetched) then mret None
    else load_cached self local_cred_location
  else load_cached self local_cred_location.

(** [_log_status] and the [dispatch] of the base class. *)
Definition _log_status (self : StreamOutputBase) (success : bool)
  : M world unit :=
  if success
  then LOGGER_info ("successfully sent alert to "
                    +:+ str (__service__ (cls self)))
  else LOGGER_error ("failed to send alert to "
                     +:+ str (__service__ (cls self))).

Definition dispatch (self : StreamOutputBase)
  (descriptor rule_name alert : string) : M world unit :=
  LOGGER_error ("unable to send alert for service "
                +:+ str (__service__ (cls self))).

End Credentials.

(** ** The HTTP helper *)

Section Transport.

Variable sv : services.

(** [ssl.create_default_context()]. *)
Definition create_default_context : SSLContext :=
  {| check_hostname := true; verify_mode := CERT_REQUIRED |}.

(** [urllib2.Request(url, data=data, headers=headers)]: the constructor
    walks [headers.items()], which [None] does not have. *)
Definition urllib2_Request {S} (url data : string)
  (headers : option (list (string * string))) : M S Request :=
  match headers with
  | None =>
      raise (AttributeError "'NoneType' object has no attribute 'items'")
  | Some h => mret (mkRequest url data h)
  end.

(** [urllib2.urlopen(request, context=context)]. *)
Definition urllib2_urlopen {S} (request : Request)
  (context : option SSLContext) : M S response :=
  match urlopen sv request context with
  | UrlResponse resp => mret resp
  | UrlRaise e => raise (exn_of_transport e)
  end.

(** The context [_request_helper] builds. *)
Definition request_context (verify : bool) : option SSLContext :=
  let context := None in
  if negb verify then
    let context := create_default_context in
    let context := {| check_hostname := false;
                      verify_mode := verify_mode context |} in
    let context := {| check_hostname := check_hostname context;
                      verify_mode := CERT_NONE |} in
    Some context
  else context.

(** The message of the [OutputRequestFailure]. *)
Definition failure_message (url : string) (code : Z) (body : string)
  : string :=
  "Failed to send to " +:+ url +:+ " - [" +:+ PyStr.of_Z code +:+ "] "
  +:+ body.

(** [_request_helper]. *)
Definition _request_helper {S} (url data : string)
  (headers : option (list (string * string))) (verify : bool)
  : M S response :=
  try_except
    (let context := request_context verify in
     request ← urllib2_Request url data headers;
     resp ← urllib2_urlopen request context;
     mret resp)
    (fun err =>
       match err with
       | HTTPError url code body =>
           Some (raise (OutputRequestFailure (failure_message url code body)))
       | _ => None
       end).

(** [_check_http_response]: [resp and (200 <= resp.getcode() <= 299)].
    A missing response is itself the result; a response object is true. *)
Definition _check_http_response (resp : option response) : option bool :=
  match resp with
  | None => None
  | Some r => Some (bool_decide (200 <= getcode r) && bool_decide (getcode r <= 299))
  end.

End Transport.

(** ** The configuration helper *)

(** The Python objects [format_output_config] touches: dictionaries from
    service names to lists, and lists of descriptors, each at its address. *)
Record store := mkStore {
  dicts : gmap positive (gmap string positive);
  lists : gmap positive (list string)
}.

(** A new list object, at an address nothing lives at. *)
Definition new_list (l : list string) : M store positive :=
  st ← get_state;
  let a := fresh (dom (dicts st) ∪ dom (lists st)) in
  modify (fun st => mkStore (dicts st) (<[a := l]> (lists st)));;
  mret a.

(** [config.get(key, default)]. *)
Definition dict_get (config : positive) (key : pyattr) (default_ : positive)
  : M store positive :=
  st ← get_state;
  match dicts st !! config with
  | None => raise (AttributeError "object has no attribute 'get'")
  | Some d =>
      match key with
      | Name k => mret (default default_ (d !! k))
      | NotImplemented => mret default_
      end
  end.

(** The item of an [OrderedDict] at a key, if any. *)
Definition od_lookup (props : list (string * OutputProperty)) (key : string)
  : option OutputProperty :=
  (fun found => found.2.2) <$> list_find (fun kv => kv.1 = key) props.

(** [props[key]] on an [OrderedDict]. *)
Definition getitem {S} (props : list (string * OutputProperty)) (key : string)
  : M S OutputProperty :=
  match od_lookup props key with
  | Some p => mret p
  | None => raise (KeyError key)
  end.

(** [a + b] on two list objects: a third one. *)
Definition list_add (a b : positive) : M store positive :=
  st ← get_state;
  match lists st !! a, lists st !! b with
  | Some la, Some lb => new_list (la ++ lb)
  | _, _ => raise (TypeError "unsupported operand type(s) for +")
  end.

(** [format_output_config]. *)
Definition format_output_config (self : StreamOutputBase)
  (config : positive) (props : list (string * OutputProperty))
  : M store positive :=
  empty ← new_list [];
  existing ← dict_get config (get_config_service self) empty;
  descriptor ← getitem props "descriptor";
  single ← new_list [value descriptor];
  list_add existing single.

(** ** The qualifier as the specification words it *)

(** Take the token off the end of [q], once, when [q] ends with it. *)
Definition strip_suffix_once (token q : string) : string :=
  if PyStr.endswith q token
  then String.substring 0 (String.length q - String.length token) q
  else q.

Definition underscores_to_dots (s : string) : string :=
  PyStr.map (fun c => if decide (c = "_"%char) then "."%char else c) s.

(** [formatQualifier] read as: strip the suffix token exactly once, then
    turn every underscore into a dot. *)
Definition formatQualifier_suffix (q : string) : string :=
  underscores_to_dots (strip_suffix_once suffix_token q).

(** The same with "once" read as the leftmost occurrence. *)
Definition formatQualifier_first (q : string) : string :=
  underscores_to_dots (PyStr.replace_first suffix_token "" q).

(** [s'] is [s] without the occurrences of [token], found left to right. *)
Inductive removed_all (token : string) : string -> string -> Prop :=
| removed_nil : removed_all token "" ""
| removed_hit rest rest' :
    removed_all token rest rest' ->
    removed_all token (token +:+ rest) rest'
| removed_keep c rest rest' :
    String.prefix token (String c rest) = false ->
    removed_all token rest rest' ->
    removed_all token (String c rest) (String c rest').

(** ** Vocabulary of the statements *)

(** The world [w] with another file system. *)
Definition with_fs (w : world) (m : gmap path node) : world :=
  mkWorld m (log w) (s3_requests w) (kms_requests w) (readonly_dirs w).

(** Two worlds that differ in the file system at most: nothing was logged
    and nothing sent to S3 or KMS in between. *)
Definition only_fs (w w' : world) : Prop :=
  log w' = log w /\ s3_requests w' = s3_requests w /\
  kms_requests w' = kms_requests w /\ readonly_dirs w' = readonly_dirs w.

(** A computation whose every run, returning or raising, relates the
    state before to the state after by [P]. *)
Definition keeps {S A} (P : S -> S -> Prop) (m : M S A) : Prop :=
  forall s r s', m s = (r, s') -> P s s'.

(** Where [_load_creds] looks for the blob of a descriptor. *)
Definition cred_location (sv : services) (self : StreamOutputBase)
  (descriptor : option string) : path :=
  OS.join (temp_dir sv) (output_cred_name self descriptor).

(** The request [_get_creds_from_s3] sends and the record it logs when
    the answer is a client error. *)
Definition download_request (self : StreamOutputBase)
  (descriptor : option string) : string * string * string :=
  (region self, get_secrets_bucket_name self,
   output_cred_name self descriptor).

Definition download_error_record (self : StreamOutputBase)
  (descriptor : option string) (response : string) : log_record :=
  mkLog ERROR
    ("credentials for " +:+ output_cred_name self descriptor
     +:+ " could not be downloaded from S3: " +:+ response).

(** ** A deployment to run the code on *)

Module Example.

(** S3 holds the blob of [slack_alerts] only; KMS decrypts that blob to a
    document the parser reads as the object with [a] 1 and [b] 2; of the
    two hooks one answers 404 and the other cannot be reached. *)
Definition sv : services :=
  {| gettempdir := ["tmp"];
     s3_download := fun region bucket key =>
       if decide (key = "slack_alerts") then S3Body "ciphertext"
       else S3ClientError "NoSuchKey";
     kms_decrypt := fun region data =>
       if decide (data = "ciphertext") then KmsPlaintext "{a: 1, b: 2}"
       else KmsClientError "InvalidCiphertextException";
     json_loads := fun doc =>
       if decide (doc = "{a: 1, b: 2}")
       then Some (JObj [("a", JNum 1); ("b", JNum 2)])
       else None;
     urlopen := fun request context =>
       if decide (req_url request = "https://hooks.example/missing")
       then UrlRaise (TE_HTTPError "https://hooks.example/missing" 404
                        "no such hook")
       else if decide (req_url request = "https://hooks.example/ok")
       then UrlResponse (mkResponse 200 "https://hooks.example/ok" "ok")
       else UrlRaise (TE_URLError "connection refused") |}.

(** The same deployment with a KMS that rejects every ciphertext. *)
Definition sv_kms_down : services :=
  {| gettempdir := gettempdir sv;
     s3_download := s3_download sv;
     kms_decrypt := fun region data => KmsClientError "KMSInternalException";
     json_loads := json_loads sv;
     urlopen := urlopen sv |}.

(** A subclass for Slack whose defaults set [b] to 9, and its instance. *)
Definition slack_class : output_class :=
  {| __service__ := Name "slack";
     __config_service__ := NotImplemented;
     get_default_properties := Some [("b", VJson (JNum 9))] |}.

Definition slack : StreamOutputBase :=
  __init__ slack_class "us-east-1" "prod_streamalert_alert_processor".

(** A machine with an empty [/tmp]; one with the blob of [slack_alerts] in
    the cache; one where a file stands where the cache directory goes. *)
Definition w_empty : world :=
  mkWorld {[ ["tmp"] := Dir ]} [] [] [] ∅.

Definition w_cached : world :=
  mkWorld (<[ ["tmp"; "stream_alert_secrets"; "slack_alerts"]
                := File "ciphertext" ]>
             (<[ ["tmp"; "stream_alert_secrets"] := Dir ]>
                {[ ["tmp"] := Dir ]})) [] [] [] ∅.

Definition w_conflict : world :=
  mkWorld (<[ ["tmp"; "stream_alert_secrets"] := File "stale" ]>
             {[ ["tmp"] := Dir ]}) [] [] [] ∅.



(** A configuration with one descriptor for Slack: the dictionary at
    address 1, its list at address 2. *)
Definition st_config : store :=
  mkStore {[ 1%positive := {[ "slack" := 2%positive ]} ]}
          {[ 2%positive := ["ops"] ]}.

Definition props_alerts : list (string * OutputProperty) :=
  [("descriptor", mkOutputProperty "" "alerts" false false)].

(** A subclass for S3 that is named [aws-s3] in the configuration, and its
    instance; a configuration that has a list under either name, at the
    addresses 2 and 3. *)
Definition s3_class : output_class :=
  {| __service__ := Name "s3";
     __config_service__ := Name "aws-s3";
     get_default_properties := None |}.

Definition s3_output : StreamOutputBase :=
  __init__ s3_class "us-east-1" "prod_streamalert_alert_processor".

Definition st_config_aws : store :=
  mkStore {[ 1%positive := {[ "aws-s3" := 2%positive; "s3" := 3%positive ]} ]}
          {[ 2%positive := ["bucket.one"]; 3%positive := ["other"] ]}.

Definition props_bucket : list (string * OutputProperty) :=
  [("descriptor", mkOutputProperty "" "bucket.two" false false)].

End Example.


(** * Properties *)

(** ** Strings *)

Section StringFacts.

Lemma append_cons c (s t : string) : String c s +:+ t = String c (s +:+ t).
Proof. reflexivity. Qed.

Lemma append_nil_l (s : string) : "" +:+ s = s.
Proof. reflexivity. Qed.

Lemma append_nil_r (s : string) : s +:+ "" = s.
Proof. induction s as [|c s IH]; [done|]. by rewrite append_cons, IH. Qed.

Lemma append_assoc (a b c : string) : (a +:+ b) +:+ c = a +:+ b +:+ c.
Proof. induction a as [|x a IH]; [done|]. by rewrite !append_cons, IH. Qed.

Lemma append_length (a b : string) :
  String.length (a +:+ b) = (String.length a + String.length b)%nat.
Proof.
  induction a as [|x a IH]; [done|]. rewrite append_cons. cbn. by rewrite IH.
Qed.

Lemma append_inj_l (a b c : string) : a +:+ b = a +:+ c -> b = c.
Proof.
  induction a as [|x a IH]; [done|]. rewrite !append_cons. intros [= H]. auto.
Qed.

Lemma prefix_append (a b : string) : String.prefix a (a +:+ b) = true.
Proof.
  induction a as [|x a IH]; [by destruct b|].
  rewrite append_cons. cbn. destruct (ascii_dec x x); [done|congruence].
Qed.

Lemma prefix_split (a s : string) :
  String.prefix a s = true -> exists r, s = a +:+ r.
Proof.
  revert s. induction a as [|x a IH]; intros s H.
  - by exists s.
  - destruct s as [|y s]; cbn in H; [done|].
    destruct (ascii_dec x y) as [->|]; [|done].
    destruct (IH _ H) as [r ->]. by exists r.
Qed.

(** Jumping over the rest of a matched token. *)
Lemma replace_from_skip (old new u r : string) :
  PyStr.replace_from old new (String.length u) (u +:+ r)
  = PyStr.replace_from old new 0 r.
Proof.
  induction u as [|c u IH]; [by destruct r|].
  rewrite append_cons. cbn. done.
Qed.

(** One step of the scan at a position where the token starts. *)
Lemma replace_from_hit (old new r : string) :
  old <> "" ->
  PyStr.replace_from old new 0 (old +:+ r)
  = new +:+ PyStr.replace_from old new 0 r.
Proof.
  intros Hne. destruct old as [|c old]; [done|].
  rewrite append_cons. cbn [PyStr.replace_from].
  rewrite <- append_cons, prefix_append.
  replace (String.length (String c old) - 1)%nat with (String.length old)
    by (cbn; lia).
  by rewrite replace_from_skip.
Qed.

(** One step of the scan at a position where the token does not start. *)
Lemma replace_from_keep (old new : string) c (r : string) :
  String.prefix old (String c r) = false ->
  PyStr.replace_from old new 0 (String c r)
  = String c (PyStr.replace_from old new 0 r).
Proof. intros H. cbn [PyStr.replace_from]. by rewrite H. Qed.

(** The scan of [str.replace] removes the occurrences of the token as
    [removed_all] describes. *)
Lemma replace_removed_all (token s : string) :
  token <> "" -> removed_all token s (PyStr.replace token "" s).
Proof.
  intros Hne.
  assert (PyStr.replace token "" s = PyStr.replace_from token "" 0 s) as ->
    by (by destruct token).
  remember (String.length s) as n eqn:Hn.
  revert s Hn. induction (lt_wf n) as [n _ IH]. intros s ->.
  destruct s as [|c s]; [constructor|].
  destruct (String.prefix token (String c s)) eqn:Hp.
  - destruct (prefix_split _ _ Hp) as [r Hr]. rewrite Hr.
    rewrite replace_from_hit by done. rewrite append_nil_l.
    constructor. eapply IH; [|done].
    rewrite Hr, append_length. destruct token; [done|cbn; lia].
  - rewrite replace_from_keep by done. constructor; [done|].
    eapply IH; [|done]. cbn. lia.
Qed.

(** What [removed_all] relates a string to is determined. *)
Lemma removed_all_functional (token s a b : string) :
  token <> "" ->
  removed_all token s a -> removed_all token s b -> a = b.
Proof.
  intros Hne Ha. revert b.
  induction Ha as [|rest rest' Ha IH|c rest rest' Hp Ha IH]; intros b Hb.
  - inversion Hb as [|r r' Hr Heq|]; subst; [done|].
    by destruct token.
  - remember (token +:+ rest) as s eqn:Hs.
    destruct Hb as [|r r' Hr|c r r' Hp Hr].
    + by destruct token.
    + apply append_inj_l in Hs. subst r. auto.
    + rewrite Hs, prefix_append in Hp. done.
  - inversion Hb as [|r r' Hr Heq|c' r r' Hp' Hr]; subst.
    + rewrite <- Heq, prefix_append in Hp. done.
    + f_equal. auto.
Qed.

(** Replacing the one-character string ["_"] is a character-wise map. *)
Lemma replace_underscores (s : string) :
  PyStr.replace "_" "." s = underscores_to_dots s.
Proof.
  unfold PyStr.replace, underscores_to_dots.
  induction s as [|c s IH]; [done|].
  cbn [PyStr.replace_from PyStr.map String.prefix String.length].
  destruct (ascii_dec "_" c) as [<-|Hne].
  - rewrite decide_True by done.
    replace (String.prefix "" s) with true by (by destruct s).
    cbn. rewrite append_cons, append_nil_l. by rewrite IH.
  - rewrite decide_False by done. by rewrite IH.
Qed.

End StringFacts.

(** ** The qualifier *)

Example format_prefix_prod :
  _format_prefix "prod_streamalert_alert_processor" = "prod".
Proof. reflexivity. Qed.

Example format_prefix_prod_east :
  _format_prefix "prod_east_streamalert_alert_processor" = "prod.east".
Proof. reflexivity. Qed.

Example format_prefix_inner_token :
  _format_prefix "a_streamalert_alert_processor_b" = "a.b".
Proof. reflexivity. Qed.

Example format_prefix_no_token : _format_prefix "dev_west" = "dev.west".
Proof. reflexivity. Qed.

(** C3, as stated, fails: on a qualifier that holds the token twice,
    [_format_prefix] takes both occurrences away, where stripping the
    suffix token exactly once (as a suffix, or as the leftmost occurrence)
    leaves one of them, to be dotted. *)
Lemma format_prefix_strips_more_than_once :
  let q := "prod_streamalert_alert_processor_streamalert_alert_processor" in
  _format_prefix q = "prod" /\
  formatQualifier_suffix q = "prod.streamalert.alert.processor" /\
  formatQualifier_first q = "prod.streamalert.alert.processor" /\
  _format_prefix q <> formatQualifier_suffix q /\
  _format_prefix q <> formatQualifier_first q.
Proof. cbv zeta. repeat split; try reflexivity; by vm_compute. Qed.

(** C3, amended: for every qualifier [q], [_format_prefix] removes every
    occurrence of the token ['_streamalert_alert_processor'] from [q],
    found left to right, and then turns every remaining underscore into a
    dot; it maps ["prod_streamalert_alert_processor"] to ["prod"] and
    ["prod_east_streamalert_alert_processor"] to ["prod.east"]. *)
Theorem format_prefix_removes_every_token :
  (forall q, exists q',
      removed_all suffix_token q q' /\
      _format_prefix q = underscores_to_dots q') /\
  _format_prefix "prod_streamalert_alert_processor" = "prod" /\
  _format_prefix "prod_east_streamalert_alert_processor" = "prod.east".
Proof.
  split; [|split; reflexivity].
  intros q. exists (PyStr.replace suffix_token "" q). split.
  - by apply replace_removed_all.
  - unfold _format_prefix. apply replace_underscores.
Qed.

(** ** The credential name *)

(** C5: for a service string [service] (empty or not),
    [output_cred_name] is [service] alone when the descriptor is unset or
    empty, and [service], an underscore and the descriptor otherwise. *)
Theorem output_cred_name_format (self : StreamOutputBase)
  (service : string) (descriptor : option string) :
  __service__ (cls self) = Name service ->
  (descriptor = None \/ descriptor = Some "" ->
   output_cred_name self descriptor = service) /\
  (forall d, descriptor = Some d -> d <> "" ->
   output_cred_name self descriptor = service +:+ "_" +:+ d).
Proof.
  intros Hs. unfold output_cred_name. rewrite Hs. cbn [str]. split.
  - by intros [-> | ->].
  - intros d -> Hd. destruct d; [done|]. reflexivity.
Qed.

(** ** The response check *)

(** C8, as stated, fails at the null response: what
    [_check_http_response] returns for it is the null response itself,
    [None], and not [False]. *)
Lemma check_http_response_null_is_none :
  _check_http_response None = None /\
  _check_http_response None <> Some false.
Proof. split; [reflexivity|discriminate]. Qed.

(** C8, amended: for a response that is there, [_check_http_response]
    returns [True] when its status code lies in [200, 299] and [False]
    when it does not; for a null response it returns that null response,
    [None], which counts as false. So it returns [True] exactly for a
    response that is there with a code in [200, 299]: [True] for 200 and
    299, [False] for 199 and 300, [None] for a null response. *)
Theorem check_http_response_values :
  (forall r,
      _check_http_response (Some r) = Some true <->
      200 <= getcode r <= 299) /\
  (forall r,
      _check_http_response (Some r) = Some false <->
      ~ 200 <= getcode r <= 299) /\
  (forall resp, _check_http_response resp = None <-> resp = None) /\
  (forall resp,
      _check_http_response resp = Some true <->
      exists r, resp = Some r /\ 200 <= getcode r <= 299) /\
  (forall url body,
      _check_http_response (Some (mkResponse 200 url body)) = Some true /\
      _check_http_response (Some (mkResponse 299 url body)) = Some true /\
      _check_http_response (Some (mkResponse 199 url body)) = Some false /\
      _check_http_response (Some (mkResponse 300 url body)) = Some false) /\
  truthy (_check_http_response None) = false.
Proof.
  assert (forall r,
      _check_http_response (Some r) = Some true <->
      200 <= getcode r <= 299) as Htrue.
  { intros r. cbn. split.
    - intros [= H]. apply andb_true_iff in H as [H1 H2].
      by apply bool_decide_eq_true in H1, H2.
    - intros [H1 H2]. f_equal.
      apply andb_true_iff. by rewrite !bool_decide_eq_true. }
  split; [exact Htrue|]. split; [|split; [|split; [|split]]].
  - intros r. rewrite <- Htrue. cbn.
    destruct (bool_decide (200 <= getcode r) && bool_decide (getcode r <= 299)).
    + split; [done|]. intros H. by destruct H.
    + split; [|done]. intros _. discriminate.
  - intros [r|]; by cbn.
  - intros [r|].
    + rewrite Htrue. split; [eauto|]. by intros (r' & [= <-] & H).
    + split; [done|]. by intros (r & ? & _).
  - by intros url body.
  - reflexivity.
Qed.

(** ** The world: frames, directories and files *)

Ltac mstep :=
  cbv beta iota zeta delta
    [mbind M_bind bind_M mret M_ret ret_M raise get_state modify try_except
     set_fs os_path_exists os_path_isdir with_open].

Section World.

Variable sv : services.

Lemma lookup_node_snoc (m : gmap path node) (d : path) (x : string) :
  OS.lookup_node m (d ++ [x]) = m !! (d ++ [x]).
Proof. by destruct d. Qed.


Lemma local_temp_dir_present (w : world) :
  OS.isdir (fs w) (temp_dir sv) = true ->
  _local_temp_dir sv w = (Ret (temp_dir sv), w).
Proof.
  intros Hd. unfold _local_temp_dir. mstep.
  assert (OS.exists_ (fs w) (temp_dir sv) = true) as He.
  { unfold OS.exists_, OS.isdir in *. apply bool_decide_eq_true in Hd.
    apply bool_decide_eq_true. rewrite Hd. eauto. }
  rewrite He, Hd. cbn. mstep. rewrite He. done.
Qed.

(** Running a bind. *)
Lemma run_bind {S A B} (m : M S A) (k : A -> M S B) (s : S) :
  (m ≫= k) s = match m s with
               | (Ret a, s') => k a s'
               | (Raise e, s') => (Raise e, s')
               end.
Proof. reflexivity. Qed.

Section Frames.
Context {S : Type} (P : S -> S -> Prop).
Hypothesis P_refl : forall s, P s s.
Hypothesis P_trans : forall a b c, P a b -> P b c -> P a c.

Lemma keeps_ret {A} (a : A) : keeps P (mret a).
Proof. intros s r s' [= _ <-]. apply P_refl. Qed.

Lemma keeps_raise {A} (e : exn) : keeps P (@raise S A e).
Proof. intros s r s' [= _ <-]. apply P_refl. Qed.

Lemma keeps_get_state : keeps P (@get_state S).
Proof. intros s r s' [= _ <-]. apply P_refl. Qed.

Lemma keeps_modify (f : S -> S) : (forall s, P s (f s)) -> keeps P (modify f).
Proof. intros Hf s r s' [= _ <-]. apply Hf. Qed.

Lemma keeps_bind {A B} (m : M S A) (k : A -> M S B) :
  keeps P m -> (forall a, keeps P (k a)) -> keeps P (m ≫= k).
Proof.
  intros Hm Hk s r s'. rewrite run_bind.
  destruct (m s) as [[a|e] s1] eqn:E; intros H.
  - eapply P_trans; [by eapply Hm|by eapply Hk].
  - injection H as _ <-. by eapply Hm.
Qed.

Lemma keeps_try {A} (m : M S A) (h : exn -> option (M S A)) :
  keeps P m -> (forall e handler, h e = Some handler -> keeps P handler) ->
  keeps P (try_except m h).
Proof.
  intros Hm Hh s r s'. unfold try_except.
  destruct (m s) as [[a|e] s1] eqn:E.
  - intros [= _ <-]. by eapply Hm.
  - destruct (h e) as [handler|] eqn:He.
    + intros H. eapply P_trans; [by eapply Hm|by eapply Hh].
    + intros [= _ <-]. by eapply Hm.
Qed.
End Frames.

Lemma only_fs_refl w : only_fs w w.
Proof. done. Qed.

Lemma only_fs_trans a b c : only_fs a b -> only_fs b c -> only_fs a c.
Proof.
  unfold only_fs. intros (?&?&?&?) (?&?&?&?). repeat split; congruence.
Qed.

Ltac fs_step :=
  first
    [ apply keeps_ret; exact only_fs_refl
    | apply keeps_raise; exact only_fs_refl
    | apply keeps_get_state; exact only_fs_refl
    | apply keeps_modify; done
    | apply keeps_bind; [exact only_fs_trans| |intros ?]
    | apply keeps_try; [exact only_fs_trans| |] ].

Lemma set_fs_only_fs f : keeps only_fs (set_fs f).
Proof. apply keeps_modify. done. Qed.

Lemma os_path_exists_only_fs p : keeps only_fs (os_path_exists p).
Proof. unfold os_path_exists. repeat fs_step. Qed.

Lemma os_path_isdir_only_fs p : keeps only_fs (os_path_isdir p).
Proof. unfold os_path_isdir. repeat fs_step. Qed.

Lemma os_remove_only_fs p : keeps only_fs (os_remove p).
Proof.
  unfold os_remove. repeat fs_step.
  repeat case_match; first [apply set_fs_only_fs|fs_step].
Qed.

Lemma os_mkdir_only_fs p : keeps only_fs (os_mkdir p).
Proof.
  unfold os_mkdir. repeat fs_step.
  repeat case_match; first [apply set_fs_only_fs|fs_step].
Qed.

Lemma makedirs_rev_only_fs rp : keeps only_fs (makedirs_rev rp).
Proof.
  induction rp as [|x rp IH]; cbn [makedirs_rev].
  - apply os_mkdir_only_fs.
  - fs_step; [apply os_path_exists_only_fs|].
    fs_step; [|apply os_mkdir_only_fs].
    case_match; [|fs_step].
    fs_step; [done|]. intros e h He. repeat case_match; simplify_eq. fs_step.
Qed.

Lemma local_temp_dir_only_fs : keeps only_fs (_local_temp_dir sv).
Proof.
  unfold _local_temp_dir.
  fs_step; [apply os_path_exists_only_fs|].
  fs_step; [apply os_path_isdir_only_fs|].
  fs_step; [case_match; [apply os_remove_only_fs|fs_step]|].
  fs_step; [apply os_path_exists_only_fs|].
  fs_step; [case_match; [apply makedirs_rev_only_fs|fs_step]|].
  fs_step.
Qed.

Lemma open_only_fs p m : keeps only_fs (open p m).
Proof.
  unfold open. fs_step; [fs_step|].
  repeat case_match; repeat first [apply set_fs_only_fs|fs_step].
Qed.


(** [os.path.exists] and [os.path.isdir], by what stands at the path. *)
Lemma exists_cases m p :
  OS.exists_ m p = match OS.lookup_node m p with
                   | Some (File _) | Some Dir => true
                   | Some DanglingLink | None => false
                   end.
Proof.
  unfold OS.exists_, OS.stat. destruct (OS.lookup_node m p) as [[c| |]|].
  - by apply bool_decide_eq_true_2.
  - by apply bool_decide_eq_true_2.
  - apply bool_decide_eq_false_2. by intros [? ?].
  - apply bool_decide_eq_false_2. by intros [? ?].
Qed.

Lemma isdir_cases m p :
  OS.isdir m p = match OS.lookup_node m p with
                 | Some Dir => true
                 | _ => false
                 end.
Proof.
  unfold OS.isdir, OS.stat. destruct (OS.lookup_node m p) as [[c| |]|].
  - by apply bool_decide_eq_false_2.
  - by apply bool_decide_eq_true_2.
  - by apply bool_decide_eq_false_2.
  - by apply bool_decide_eq_false_2.
Qed.




Lemma exists_of_file m p c :
  OS.lookup_node m p = Some (File c) -> OS.exists_ m p = true.
Proof. intros H. by rewrite exists_cases, H. Qed.


Lemma lookup_node_insert_ne (m : gmap path node) p q n :
  p <> q -> OS.lookup_node (<[q := n]> m) p = OS.lookup_node m p.
Proof. intros Hne. destruct p; [done|]. cbn. by rewrite lookup_insert_ne. Qed.




Lemma os_mkdir_ret p w w' :
  os_mkdir p w = (Ret tt, w') ->
  w' = with_fs w (<[p := Dir]> (fs w)) /\ OS.lookup_node (fs w) p = None.
Proof.
  unfold os_mkdir. mstep.
  destruct (OS.lookup_node (fs w) p) as [n|].
  { by rewrite bool_decide_eq_true_2 by eauto. }
  rewrite bool_decide_eq_false_2 by (by intros [? ?]).
  destruct (OS.stat (fs w) (OS.parent p)) as [[| |]|]; try done.
  destruct (refused w p); [done|]. by intros [= <-].
Qed.



Lemma makedirs_rev_ret rp w w' :
  makedirs_rev rp w = (Ret tt, w') -> fs w' !! rev rp = Some Dir.
Proof.
  destruct rp as [|x rh]; cbn [makedirs_rev].
  - intros H. apply os_mkdir_ret in H as [_ H]. done.
  - rewrite run_bind.
    destruct (os_path_exists (rev rh) w) as [[b|e] w1]; [|done].
    rewrite run_bind.
    match goal with
    | |- context [ match ?m w1 with _ => _ end ] =>
        destruct (m w1) as [[[]|e] w2]; [|done]
    end.
    intros H. apply os_mkdir_ret in H as [-> _]. cbn.
    apply lookup_insert_eq.
Qed.


Lemma os_remove_ret p w w' :
  os_remove p w = (Ret tt, w') -> w' = with_fs w (delete p (fs w)).
Proof.
  unfold os_remove. mstep.
  destruct (OS.lookup_node (fs w) p) as [n|]; [|done].
  destruct (refused w p); [done|].
  destruct n; [|done|]; by intros [= <-].
Qed.

Lemma lookup_node_temp (m : gmap path node) :
  OS.lookup_node m (temp_dir sv) = m !! temp_dir sv.
Proof. apply lookup_node_snoc. Qed.

Lemma exists_temp (m : gmap path node) :
  OS.exists_ m (temp_dir sv) = match m !! temp_dir sv with
                               | Some (File _) | Some Dir => true
                               | Some DanglingLink | None => false
                               end.
Proof. by rewrite exists_cases, lookup_node_temp. Qed.

Lemma isdir_temp (m : gmap path node) :
  OS.isdir m (temp_dir sv) = bool_decide (m !! temp_dir sv = Some Dir).
Proof.
  rewrite isdir_cases, lookup_node_temp.
  destruct (m !! temp_dir sv) as [[c| |]|]; symmetry;
    first [by apply bool_decide_eq_true_2|by apply bool_decide_eq_false_2].
Qed.




Lemma os_makedirs_temp_ret w w' :
  os_makedirs (temp_dir sv) w = (Ret tt, w') ->
  fs w' !! temp_dir sv = Some Dir.
Proof.
  intros Hm. apply makedirs_rev_ret in Hm. by rewrite rev_involutive in Hm.
Qed.

(** [_local_temp_dir], run, by what stands at the cache path. *)
Lemma local_temp_dir_run w :
  _local_temp_dir sv w
  = match fs w !! temp_dir sv with
    | Some Dir => (Ret (temp_dir sv), w)
    | Some (File _) =>
        match os_remove (temp_dir sv) w with
        | (Ret _, w1) =>
            match os_makedirs (temp_dir sv) w1 with
            | (Ret _, w2) => (Ret (temp_dir sv), w2)
            | (Raise e, w2) => (Raise e, w2)
            end
        | (Raise e, w1) => (Raise e, w1)
        end
    | Some DanglingLink | None =>
        match os_makedirs (temp_dir sv) w with
        | (Ret _, w2) => (Ret (temp_dir sv), w2)
        | (Raise e, w2) => (Raise e, w2)
        end
    end.
Proof.
  unfold _local_temp_dir. mstep. rewrite !exists_temp, !isdir_temp.
  destruct (fs w !! temp_dir sv) as [[c| |]|] eqn:Ht.
  - rewrite bool_decide_eq_false_2 by done. cbn [andb negb].
    destruct (os_remove (temp_dir sv) w) as [[[]|e] w1] eqn:Hr; [|done].
    apply os_remove_ret in Hr as ->. cbn [fs with_fs].
    rewrite exists_temp, lookup_delete_eq. cbn [negb].
    by destruct (os_makedirs _ _) as [[[]|e] w2].
  - rewrite bool_decide_eq_true_2 by done. cbn [andb negb].
    by rewrite exists_temp, Ht.
  - rewrite bool_decide_eq_false_2 by done. cbn [andb negb].
    rewrite exists_temp, Ht. cbn [negb].
    by destruct (os_makedirs _ _) as [[[]|e] w2].
  - rewrite bool_decide_eq_false_2 by done. cbn [andb negb].
    rewrite exists_temp, Ht. cbn [negb].
    by destruct (os_makedirs _ _) as [[[]|e] w2].
Qed.

(** Whenever [_local_temp_dir] returns, it returns the cache path and a
    directory stands there. *)
Lemma local_temp_dir_ret w r w' :
  _local_temp_dir sv w = (Ret r, w') ->
  r = temp_dir sv /\ fs w' !! temp_dir sv = Some Dir.
Proof.
  rewrite local_temp_dir_run.
  destruct (fs w !! temp_dir sv) as [[c| |]|] eqn:Ht.
  - destruct (os_remove (temp_dir sv) w) as [[[]|e] w1]; [|done].
    destruct (os_makedirs _ _) as [[[]|e] w2] eqn:Hm; [|done].
    intros [= <- <-]. split; [done|]. by eapply os_makedirs_temp_ret.
  - by intros [= <- <-].
  - destruct (os_makedirs _ _) as [[[]|e] w2] eqn:Hm; [|done].
    intros [= <- <-]. split; [done|]. by eapply os_makedirs_temp_ret.
  - destruct (os_makedirs _ _) as [[[]|e] w2] eqn:Hm; [|done].
    intros [= <- <-]. split; [done|]. by eapply os_makedirs_temp_ret.
Qed.




(** What [open(p, 'wb')] does when it returns, and that it changes nothing
    when it raises. *)
Lemma open_wb_ret p w f w' :
  open p wb w = (Ret f, w') ->
  f = mkFile p wb /\ w' = with_fs w (<[p := File ""]> (fs w)) /\
  OS.lookup_node (fs w) p <> Some Dir.
Proof.
  unfold open. mstep.
  destruct (OS.lookup_node (fs w) p) as [[c| |]|]; [|done|done|].
  - by intros [= <- <-].
  - destruct (OS.isdir (fs w) (OS.parent p)); [|done].
    destruct (refused w p); [done|]. by intros [= <- <-].
Qed.

Lemma open_raise p m w e w' :
  open p m w = (Raise e, w') -> w' = w /\ exists msg, e = IOError msg.
Proof.
  unfold open. mstep.
  destruct (OS.lookup_node (fs w) p) as [[c| |]|], m; try done;
    try (destruct (OS.isdir (fs w) (OS.parent p)); [|by intros [= <- <-]; eauto]);
    try (destruct (refused w p); [|done]);
    intros [= <- <-]; eauto.
Qed.

Lemma open_wb_file p w c :
  OS.lookup_node (fs w) p = Some (File c) ->
  open p wb w = (Ret (mkFile p wb), with_fs w (<[p := File ""]> (fs w))).
Proof. intros H. unfold open. mstep. by rewrite H. Qed.

(** The read of line 90 is a read of a file opened for writing: whatever
    the state, lines 89 to 105 end in an [IOError], having touched the
    file system at most. *)
Lemma load_cached_raises self loc w :
  exists msg w',
    load_cached sv self loc w = (Raise (IOError msg), w') /\ only_fs w w'.
Proof.
  unfold load_cached. rewrite run_bind. unfold with_open at 1.
  rewrite run_bind.
  destruct (open loc wb w) as [[f|e] w1] eqn:Ho.
  - apply open_wb_ret in Ho as (-> & -> & _). unfold file_read. cbn [f_mode].
    mstep. eexists _, _. split; [done|]. done.
  - apply open_raise in Ho as (-> & msg & ->). eauto using only_fs_refl.
Qed.

Lemma load_cached_file self loc w c :
  OS.lookup_node (fs w) loc = Some (File c) ->
  load_cached sv self loc w
  = (Raise (IOError "File not open for reading"),
     with_fs w (<[loc := File ""]> (fs w))).
Proof.
  intros H. unfold load_cached. rewrite run_bind. unfold with_open at 1.
  rewrite run_bind, (open_wb_file _ _ _ H). done.
Qed.

(** A download that ends in a client error: the file is there and empty,
    the request was sent, the error logged once, the result [None]. *)
Lemma get_creds_client_error self loc descriptor w f w0 response :
  open loc wb w = (Ret f, w0) ->
  s3_download sv (region self) (get_secrets_bucket_name self)
    (output_cred_name self descriptor) = S3ClientError response ->
  _get_creds_from_s3 sv self loc descriptor w
  = (Ret None,
     mkWorld (<[loc := File ""]> (fs w))
       (log w ++ [mkLog ERROR
                    ("credentials for " +:+ output_cred_name self descriptor
                     +:+ " could not be downloaded from S3: " +:+ response)])
       ((region self, get_secrets_bucket_name self,
          output_cred_name self descriptor) :: s3_requests w)
       (kms_requests w) (readonly_dirs w)).
Proof.
  intros Ho Hs. apply open_wb_ret in Ho as Ho'. destruct Ho' as (-> & -> & _).
  unfold _get_creds_from_s3, try_except. rewrite run_bind.
  unfold with_open. rewrite run_bind, Ho. unfold download_fileobj.
  rewrite run_bind. rewrite Hs. mstep. unfold LOGGER_error. mstep. done.
Qed.

(** A download that succeeds: the file holds the body. *)
Lemma get_creds_body self loc descriptor w f w0 data :
  open loc wb w = (Ret f, w0) ->
  s3_download sv (region self) (get_secrets_bucket_name self)
    (output_cred_name self descriptor) = S3Body data ->
  _get_creds_from_s3 sv self loc descriptor w
  = (Ret (Some true),
     mkWorld (<[loc := File data]> (fs w)) (log w)
       ((region self, get_secrets_bucket_name self,
          output_cred_name self descriptor) :: s3_requests w)
       (kms_requests w) (readonly_dirs w)).
Proof.
  intros Ho Hs. apply open_wb_ret in Ho as Ho'. destruct Ho' as (-> & -> & _).
  unfold _get_creds_from_s3, try_except. rewrite run_bind.
  unfold with_open. rewrite run_bind, Ho. unfold download_fileobj.
  rewrite run_bind. rewrite Hs. unfold file_write. cbn [f_mode f_path].
  mstep. cbn [fs with_fs]. rewrite lookup_insert_eq, insert_insert_eq.
  done.
Qed.

(** When the file cannot be opened, nothing is asked of S3. *)
Lemma get_creds_open_raises self loc descriptor w e w0 :
  open loc wb w = (Raise e, w0) ->
  _get_creds_from_s3 sv self loc descriptor w = (Raise e, w).
Proof.
  intros Ho. apply open_raise in Ho as Ho'. destruct Ho' as (-> & msg & ->).
  unfold _get_creds_from_s3, try_except. rewrite run_bind.
  unfold with_open. rewrite run_bind, Ho. done.
Qed.

Lemma load_creds_unfold self descriptor w :
  _load_creds sv self descriptor w
  = match _local_temp_dir sv w with
    | (Ret t, w0) =>
        let loc := OS.join t (output_cred_name self descriptor) in
        if negb (OS.exists_ (fs w0) loc) then
          match _get_creds_from_s3 sv self loc descriptor w0 with
          | (Ret fetched, w1) =>
              if negb (truthy fetched) then (Ret None, w1)
              else load_cached sv self loc w1
          | (Raise e, w1) => (Raise e, w1)
          end
        else load_cached sv self loc w0
    | (Raise e, w0) => (Raise e, w0)
    end.
Proof.
  unfold _load_creds. rewrite run_bind.
  destruct (_local_temp_dir sv w) as [[t|e] w0]; [|done].
  rewrite run_bind. unfold os_path_exists at 1. mstep.
  destruct (OS.exists_ (fs w0) _); cbn [negb]; [done|].
  destruct (_get_creds_from_s3 _ _ _ _ _) as [[fetched|e] w1]; [|done].
  by destruct (negb (truthy fetched)).
Qed.

Lemma load_creds_cached self descriptor w blob :
  fs w !! temp_dir sv = Some Dir ->
  OS.lookup_node (fs w) (cred_location sv self descriptor) = Some (File blob) ->
  _load_creds sv self descriptor w
  = (Raise (IOError "File not open for reading"),
     with_fs w (<[cred_location sv self descriptor := File ""]> (fs w))).
Proof.
  intros Ht Hl. rewrite load_creds_unfold, local_temp_dir_present.
  - cbv zeta. fold (cred_location sv self descriptor).
    rewrite (exists_of_file _ _ _ Hl). cbn [negb].
    by eapply load_cached_file.
  - rewrite isdir_temp. by apply bool_decide_eq_true_2.
Qed.

(** C1, on the code: with the blob in the local cache, [_load_creds] asks
    nothing of S3, on the first call and on the second; but neither call
    returns the merged credentials: each raises the [IOError] of reading
    a file opened with ['wb'], and the first one has emptied the blob. *)
Theorem load_creds_cached_raises self descriptor w blob :
  fs w !! temp_dir sv = Some Dir ->
  OS.lookup_node (fs w) (cred_location sv self descriptor) = Some (File blob) ->
  let w1 := with_fs w (<[cred_location sv self descriptor := File ""]> (fs w)) in
  _load_creds sv self descriptor w
  = (Raise (IOError "File not open for reading"), w1) /\
  _load_creds sv self descriptor w1
  = (Raise (IOError "File not open for reading"), w1) /\
  s3_requests w1 = s3_requests w.
Proof.
  intros Ht Hl w1. split; [by eapply load_creds_cached|]. split; [|done].
  assert (cred_location sv self descriptor <> temp_dir sv) as Hne.
  { intros E. rewrite E, lookup_node_temp, Ht in Hl. done. }
  assert (cred_location sv self descriptor <> []) as Hnil.
  { intros E. by rewrite E in Hl. }
  rewrite (load_creds_cached self descriptor w1 "").
  - subst w1. unfold with_fs. cbn. by rewrite insert_insert_eq.
  - subst w1. cbn. by rewrite lookup_insert_ne.
  - subst w1. cbn. destruct (cred_location sv self descriptor); [done|].
    cbn. apply lookup_insert_eq.
Qed.

(** C10: when a call of [_load_creds] sends a request to S3 and S3 answers
    with a client error, the call returns [None] with the error logged,
    and the file [_get_creds_from_s3] opened for the download is left at
    the cache path, empty; the next call for the same credential name
    finds the path present and asks nothing of S3. *)
Theorem failed_fetch_leaves_file self descriptor w r1 w1 response :
  _load_creds sv self descriptor w = (r1, w1) ->
  s3_requests w1 <> s3_requests w ->
  s3_download sv (region self) (get_secrets_bucket_name self)
    (output_cred_name self descriptor) = S3ClientError response ->
  r1 = Ret None /\
  fs w1 !! cred_location sv self descriptor = Some (File "") /\
  OS.exists_ (fs w1) (cred_location sv self descriptor) = true /\
  s3_requests w1
  = (region self, get_secrets_bucket_name self,
      output_cred_name self descriptor) :: s3_requests w /\
  log w1
  = log w ++ [mkLog ERROR
                ("credentials for " +:+ output_cred_name self descriptor
                 +:+ " could not be downloaded from S3: " +:+ response)] /\
  forall r2 w2,
    _load_creds sv self descriptor w1 = (r2, w2) ->
    s3_requests w2 = s3_requests w1.
Proof.
  intros Hrun Hreq Hs3. rewrite load_creds_unfold in Hrun.
  destruct (_local_temp_dir sv w) as [[t|e] w0] eqn:Ht; cycle 1.
  { injection Hrun as _ <-. apply local_temp_dir_only_fs in Ht as (_ & E & _).
    done. }
  pose proof (local_temp_dir_only_fs _ _ _ Ht) as (Elog & Es3 & _).
  apply local_temp_dir_ret in Ht as [-> Hdir].
  cbv zeta in Hrun. fold (cred_location sv self descriptor) in Hrun.
  destruct (OS.exists_ (fs w0) (cred_location sv self descriptor)) eqn:Hex;
    cbn [negb] in Hrun.
  { destruct (load_cached_raises self (cred_location sv self descriptor) w0)
      as (msg & w' & Hl & _ & E & _).
    rewrite Hl in Hrun. injection Hrun as _ <-. congruence. }
  destruct (open (cred_location sv self descriptor) wb w0) as [[f|e] w0'] eqn:Ho.
  2:{ rewrite (get_creds_open_raises _ _ _ _ _ _ Ho) in Hrun.
      injection Hrun as _ <-. congruence. }
  rewrite (get_creds_client_error _ _ _ _ _ _ _ Ho Hs3) in Hrun.
  cbn in Hrun. injection Hrun as <- <-. cbn [fs s3_requests].
  assert (cred_location sv self descriptor <> temp_dir sv) as Hne.
  { intros E. by rewrite E, exists_temp, Hdir in Hex. }
  split; [done|]. split; [apply lookup_insert_eq|].
  assert (forall m, OS.exists_
            (<[cred_location sv self descriptor := File ""]> m)
            (cred_location sv self descriptor) = true) as Hnow.
  { intros m. rewrite exists_cases.
    destruct (cred_location sv self descriptor) eqn:E; [done|].
    cbn. by rewrite lookup_insert_eq. }
  split; [apply Hnow|]. split; [by rewrite Es3|]. split; [by rewrite Elog|].
  intros r2 w2. rewrite load_creds_unfold, local_temp_dir_present; cycle 1.
  { rewrite isdir_temp. cbn [fs]. rewrite lookup_insert_ne by done.
    by apply bool_decide_eq_true_2. }
  cbv zeta. fold (cred_location sv self descriptor). cbn [fs].
  rewrite Hnow. cbn [negb].
  match goal with
  | |- context [ load_cached sv self ?l ?w ] =>
      destruct (load_cached_raises self l w) as (msg & w' & -> & _ & E & _)
  end.
  intros [= _ <-]. done.
Qed.


(** C2, on the code: no call of [_load_creds] gets as far as KMS. It
    sends KMS nothing and returns no credentials; it returns [None] only
    after a download that ended in a client error. So a failing
    decryption is never what makes it return [None] and log: with the
    blob at hand the call raises an [IOError] before it decrypts. *)
Theorem load_creds_never_decrypts self descriptor w r w' :
  _load_creds sv self descriptor w = (r, w') ->
  kms_requests w' = kms_requests w /\
  (r = Ret None \/ exists e, r = Raise e) /\
  (r = Ret None ->
   exists response,
     s3_download sv (region self) (get_secrets_bucket_name self)
       (output_cred_name self descriptor) = S3ClientError response).
Proof.
  rewrite load_creds_unfold.
  destruct (_local_temp_dir sv w) as [[t|e] w0] eqn:Ht; cycle 1.
  { intros [= <- <-]. apply local_temp_dir_only_fs in Ht as (_ & _ & E & _).
    split; [done|]. split; [eauto|done]. }
  apply local_temp_dir_only_fs in Ht as (_ & _ & Ek & _). cbv zeta.
  set (loc := OS.join t (output_cred_name self descriptor)).
  destruct (OS.exists_ (fs w0) loc); cbn [negb].
  { destruct (load_cached_raises self loc w0) as (msg & w1 & -> & _ & _ & E & _).
    intros [= <- <-]. split; [congruence|]. split; [eauto|done]. }
  destruct (open loc wb w0) as [[f|e] w0'] eqn:Ho.
  2:{ rewrite (get_creds_open_raises _ _ _ _ _ _ Ho).
      intros [= <- <-]. split; [done|]. split; [eauto|done]. }
  destruct (s3_download sv (region self) (get_secrets_bucket_name self)
              (output_cred_name self descriptor)) as [data|response] eqn:Hs.
  - rewrite (get_creds_body _ _ _ _ _ _ _ Ho Hs). cbn [truthy from_option id negb].
    match goal with
    | |- context [ load_cached sv self loc ?w ] =>
        destruct (load_cached_raises self loc w) as (msg & w1 & -> & _ & _ & E & _)
    end.
    intros [= <- <-]. cbn in E. split; [congruence|]. split; [eauto|done].
  - rewrite (get_creds_client_error _ _ _ _ _ _ _ Ho Hs).
    cbn [truthy from_option id negb]. intros [= <- <-].
    split; [done|]. split; [eauto|]. eauto.
Qed.

End World.

(** ** The deployment of [Example], run *)

Lemma output_cred_name_format_witness :
  output_cred_name Example.slack (Some "alerts") = "slack_alerts" /\
  output_cred_name Example.slack None = "slack".
Proof.
  split.
  - apply (proj2 (output_cred_name_format Example.slack "slack"
                    (Some "alerts") eq_refl) "alerts" eq_refl).
    discriminate.
  - apply (proj1 (output_cred_name_format Example.slack "slack" None eq_refl)).
    left. reflexivity.
Defined.

Lemma load_creds_cached_raises_witness :
  let w1 :=
    with_fs Example.w_cached
      (<[cred_location Example.sv Example.slack (Some "alerts") := File ""]>
         (fs Example.w_cached)) in
  _load_creds Example.sv Example.slack (Some "alerts") Example.w_cached
  = (Raise (IOError "File not open for reading"), w1) /\
  _load_creds Example.sv Example.slack (Some "alerts") w1
  = (Raise (IOError "File not open for reading"), w1) /\
  s3_requests w1 = s3_requests Example.w_cached.
Proof.
  apply (load_creds_cached_raises Example.sv Example.slack (Some "alerts")
           Example.w_cached "ciphertext"); vm_compute; reflexivity.
Defined.

Lemma load_creds_never_decrypts_witness :
  let run :=
    _load_creds Example.sv_kms_down Example.slack (Some "alerts")
      Example.w_cached in
  kms_requests (snd run) = [] /\
  (fst run = Ret None \/ exists e, fst run = Raise e).
Proof.
  cbv zeta.
  destruct (load_creds_never_decrypts Example.sv_kms_down Example.slack
              (Some "alerts") Example.w_cached _ _ (surjective_pairing _))
    as (Hk & Hr & _).
  split; [exact Hk|exact Hr].
Defined.



Lemma failed_fetch_leaves_file_witness :
  let run :=
    _load_creds Example.sv Example.slack (Some "other") Example.w_empty in
  fst run = Ret None /\
  fs (snd run) !! ["tmp"; "stream_alert_secrets"; "slack_other"]
  = Some (File "") /\
  forall r2 w2,
    _load_creds Example.sv Example.slack (Some "other") (snd run) = (r2, w2) ->
    s3_requests w2 = s3_requests (snd run).
Proof.
  cbv zeta.
  destruct (failed_fetch_leaves_file Example.sv Example.slack (Some "other")
              Example.w_empty _ _ "NoSuchKey" (surjective_pairing _))
    as (Hr & Hf & _ & _ & _ & Hnext).
  - vm_compute. discriminate.
  - vm_compute. reflexivity.
  - split; [exact Hr|]. split; [exact Hf|exact Hnext].
Defined.

(** C4, on the code: the merge of lines 100 to 105 puts the defaults over
    the parsed mapping, [{a: 1, b: 2}] with [{b: 9}] giving
    [{a: 1, b: 9}]; but [_load_creds] does not return it: with the blob
    cached, and also after a successful download, the call raises the
    [IOError] of line 90 before anything is decrypted, parsed or merged. *)
Theorem load_creds_merge_not_reached :
  fst (add_defaults Example.slack
         (of_json (JObj [("a", JNum 1); ("b", JNum 2)])) Example.w_cached)
  = Ret (PDict {[ "a" := VJson (JNum 1); "b" := VJson (JNum 9) ]}) /\
  fst (_load_creds Example.sv Example.slack (Some "alerts") Example.w_cached)
  = Raise (IOError "File not open for reading") /\
  fst (_load_creds Example.sv Example.slack (Some "alerts") Example.w_empty)
  = Raise (IOError "File not open for reading") /\
  s3_requests
    (snd (_load_creds Example.sv Example.slack (Some "alerts")
            Example.w_empty))
  = [("us-east-1", "prod.streamalert.secrets", "slack_alerts")].
Proof. repeat split; vm_compute; reflexivity. Qed.

(** ** The configuration helper *)

Lemma new_list_run (l : list string) (st : store) :
  new_list l st
  = (Ret (fresh (dom (dicts st) ∪ dom (lists st))),
     mkStore (dicts st)
       (<[fresh (dom (dicts st) ∪ dom (lists st)) := l]> (lists st))).
Proof. reflexivity. Qed.

Lemma fresh_not_list (st : store) :
  lists st !! fresh (dom (dicts st) ∪ dom (lists st)) = None.
Proof.
  apply not_elem_of_dom. intros H.
  apply (is_fresh (dom (dicts st) ∪ dom (lists st))). set_solver.
Qed.

Lemma fresh_not_dict (st : store) :
  dicts st !! fresh (dom (dicts st) ∪ dom (lists st)) = None.
Proof.
  apply not_elem_of_dom. intros H.
  apply (is_fresh (dom (dicts st) ∪ dom (lists st))). set_solver.
Qed.

Lemma dict_get_run (config : positive) (key : pyattr) (dflt : positive)
  (st : store) (d : gmap string positive) :
  dicts st !! config = Some d ->
  dict_get config key dflt st
  = (Ret match key with
         | Name k => default dflt (d !! k)
         | NotImplemented => dflt
         end, st).
Proof. intros Hd. unfold dict_get. mstep. rewrite Hd. by destruct key. Qed.

Lemma list_add_run (a b : positive) (st : store) (la lb : list string) :
  lists st !! a = Some la -> lists st !! b = Some lb ->
  list_add a b st = new_list (la ++ lb) st.
Proof. intros Ha Hb. unfold list_add. mstep. by rewrite Ha, Hb. Qed.

(** The name [get_config_service] looks the configuration up under: the
    one the class sets for the configuration when it sets one, else the
    name of its service; none for the base class, which sets neither. *)
Lemma get_config_service_key (self : StreamOutputBase) :
  get_config_service self
  = match __config_service__ (cls self), __service__ (cls self) with
    | Name override, _ => Name override
    | NotImplemented, service => service
    end.
Proof.
  unfold get_config_service.
  destruct (__config_service__ (cls self)) as [|override]; [|done].
  by rewrite decide_True.
Qed.

(** What [format_output_config] does, the key left as
    [get_config_service] gives it. *)
Lemma format_output_config_by_service (self : StreamOutputBase)
  (config : positive) (props : list (string * OutputProperty))
  (st : store) (d : gmap string positive) (p : OutputProperty) :
  dicts st !! config = Some d ->
  (forall k a, d !! k = Some a -> is_Some (lists st !! a)) ->
  od_lookup props "descriptor" = Some p ->
  let existing :=
    match get_config_service self with
    | Name k => default [] (d !! k ≫= fun a => lists st !! a)
    | NotImplemented => []
    end in
  exists a st',
    format_output_config self config props st = (Ret a, st') /\
    lists st' !! a = Some (existing ++ [value p]) /\
    lists st !! a = None /\ dicts st !! a = None /\
    dicts st' = dicts st /\
    (forall b l, lists st !! b = Some l -> lists st' !! b = Some l).
Proof.
  intros Hd Hwf Hp existing.
  unfold format_output_config. rewrite run_bind, new_list_run.
  set (a0 := fresh (dom (dicts st) ∪ dom (lists st))).
  set (st1 := mkStore (dicts st) (<[a0 := []]> (lists st))).
  assert (lists st !! a0 = None) as Ha0 by apply fresh_not_list.
  set (loc := match get_config_service self with
              | Name k => default a0 (d !! k)
              | NotImplemented => a0
              end).
  assert (lists st1 !! loc = Some existing) as Hloc.
  { subst loc existing. cbn [lists st1].
    destruct (get_config_service self) as [|k]; [apply lookup_insert_eq|].
    destruct (d !! k) as [a|] eqn:Hk; cbn.
    - destruct (Hwf _ _ Hk) as [l Hl]. rewrite Hl. cbn.
      rewrite lookup_insert_ne; [done|]. intros <-. congruence.
    - apply lookup_insert_eq. }
  rewrite run_bind, (dict_get_run _ _ _ st1 d Hd). fold loc.
  rewrite run_bind. unfold getitem at 1. rewrite Hp.
  change (@mret (M store) _ _ p st1) with (@Ret OutputProperty p, st1).
  cbv iota beta. rewrite run_bind, new_list_run.
  set (a1 := fresh (dom (dicts st1) ∪ dom (lists st1))).
  set (st2 := mkStore (dicts st1) (<[a1 := [value p]]> (lists st1))).
  assert (lists st1 !! a1 = None) as Ha1 by apply fresh_not_list.
  rewrite (list_add_run loc a1 st2 existing [value p]); cycle 1.
  { cbn [lists st2]. rewrite lookup_insert_ne by (intros <-; congruence).
    done. }
  { cbn [lists st2]. apply lookup_insert_eq. }
  rewrite new_list_run.
  set (a2 := fresh (dom (dicts st2) ∪ dom (lists st2))).
  assert (lists st2 !! a2 = None) as Ha2 by apply fresh_not_list.
  assert (dicts st2 !! a2 = None) as Hd2 by apply fresh_not_dict.
  cbn [lists dicts st2 st1] in Ha2, Hd2, Ha1.
  apply lookup_insert_None in Ha2 as [Ha2 Hne1].
  apply lookup_insert_None in Ha2 as [Ha2 Hne0].
  eexists _, _. split; [done|]. cbn [lists dicts].
  split; [apply lookup_insert_eq|]. split; [done|]. split; [done|].
  split; [done|].
  intros b l Hb. apply lookup_insert_None in Ha1 as [Ha1 Hne].
  rewrite lookup_insert_ne by (intros <-; congruence). cbn [lists st2 st1].
  rewrite lookup_insert_ne by (intros <-; congruence).
  rewrite lookup_insert_ne by (intros <-; congruence). done.
Qed.

(** C6: for a configuration dictionary whose values are lists and
    properties that hold a ['descriptor'], [format_output_config] returns
    a list object that did not exist before. It holds the descriptors the
    configuration has under the name of this service, which is the name
    the class sets for the configuration when it sets one and the name of
    the service otherwise (none for a name that is absent, or when the
    class sets neither), followed by the value of the new descriptor. The
    dictionary and every list that existed are as they were. *)
Theorem format_output_config_appends (self : StreamOutputBase)
  (config : positive) (props : list (string * OutputProperty))
  (st : store) (d : gmap string positive) (p : OutputProperty) :
  dicts st !! config = Some d ->
  (forall k a, d !! k = Some a -> is_Some (lists st !! a)) ->
  od_lookup props "descriptor" = Some p ->
  let key :=
    match __config_service__ (cls self), __service__ (cls self) with
    | Name override, _ => Some override
    | NotImplemented, Name service => Some service
    | NotImplemented, NotImplemented => None
    end in
  let existing :=
    default [] (key ≫= fun k => d !! k ≫= fun a => lists st !! a) in
  exists a st',
    format_output_config self config props st = (Ret a, st') /\
    lists st' !! a = Some (existing ++ [value p]) /\
    lists st !! a = None /\ dicts st !! a = None /\
    dicts st' = dicts st /\
    (forall b l, lists st !! b = Some l -> lists st' !! b = Some l).
Proof.
  intros Hd Hwf Hp key existing.
  pose proof (format_output_config_by_service self config props st d p
                Hd Hwf Hp) as H.
  cbv zeta in H. rewrite get_config_service_key in H.
  replace existing with
    (match
       match __config_service__ (cls self), __service__ (cls self) with
       | Name override, _ => Name override
       | NotImplemented, service => service
       end
     with
     | NotImplemented => []
     | Name k => default [] (d !! k ≫= fun a => lists st !! a)
     end); [exact H|].
  subst existing key.
  by destruct (__config_service__ (cls self)), (__service__ (cls self)).
Qed.

Lemma format_output_config_appends_witness :
  exists a st',
    format_output_config Example.s3_output 1%positive Example.props_bucket
      Example.st_config_aws = (Ret a, st') /\
    lists st' !! a = Some ["bucket.one"; "bucket.two"] /\
    lists st' !! 2%positive = Some ["bucket.one"] /\
    lists st' !! 3%positive = Some ["other"] /\
    dicts st' = dicts Example.st_config_aws.
Proof.
  destruct (format_output_config_appends Example.s3_output 1%positive
              Example.props_bucket Example.st_config_aws
              {[ "aws-s3" := 2%positive; "s3" := 3%positive ]}
              (mkOutputProperty "" "bucket.two" false false))
    as (a & st' & Hrun & Hnew & _ & _ & Hdicts & Hold).
  - vm_compute. reflexivity.
  - intros k a Hk. apply lookup_insert_Some in Hk as [[_ <-]|[_ Hk]].
    + exists ["bucket.one"]. vm_compute. reflexivity.
    + apply lookup_singleton_Some in Hk as [_ <-].
      exists ["other"]. vm_compute. reflexivity.
  - vm_compute. reflexivity.
  - exists a, st'. split; [exact Hrun|]. split; [exact Hnew|].
    split; [apply Hold; vm_compute; reflexivity|].
    split; [apply Hold; vm_compute; reflexivity|exact Hdicts].
Defined.

(** ** The HTTP helper *)

Lemma request_helper_run {S} (sv : services) (url data : string)
  (headers : list (string * string)) (verify : bool) (s : S) :
  _request_helper sv url data (Some headers) verify s
  = match urlopen sv (mkRequest url data headers) (request_context verify) with
    | UrlResponse resp => (Ret resp, s)
    | UrlRaise (TE_HTTPError u c b) =>
        (Raise (OutputRequestFailure (failure_message u c b)), s)
    | UrlRaise e => (Raise (exn_of_transport e), s)
    end.
Proof.
  unfold _request_helper, try_except, urllib2_Request, urllib2_urlopen.
  rewrite !run_bind. cbv beta iota delta [mret M_ret ret_M raise].
  by destruct (urlopen sv _ _) as [resp|[u c b|reason|name]].
Qed.

(** C7, as stated, fails: when the hook cannot be reached, what
    [_request_helper] raises is the [URLError] of the transport, not an
    [OutputRequestFailure]. *)
Lemma request_helper_connection_error_passes :
  _request_helper (S:=unit) Example.sv "https://hooks.example/down" "{}"
    (Some []) true tt
  = (Raise (URLError "connection refused"), tt) /\
  forall msg, URLError "connection refused" <> OutputRequestFailure msg.
Proof. split; [reflexivity|discriminate]. Qed.

(** C7, amended: for every url, body, mapping of headers and verifyTls,
    when the transport answers with an HTTP error status (an
    [HTTPError]), [_request_helper] raises [OutputRequestFailure] with a
    message that carries the URL, the status code and the body of the
    error; it raises [OutputRequestFailure] in no other case; and any
    other failure of the transport, a connection error among them,
    reaches the caller as it is. *)
Theorem request_helper_translates_http_errors {S} (sv : services)
  (url data : string) (headers : list (string * string)) (verify : bool)
  (s : S) :
  let answer :=
    urlopen sv (mkRequest url data headers) (request_context verify) in
  (forall u c b,
      answer = UrlRaise (TE_HTTPError u c b) ->
      _request_helper sv url data (Some headers) verify s
      = (Raise (OutputRequestFailure
                  ("Failed to send to " +:+ u +:+ " - [" +:+ PyStr.of_Z c
                   +:+ "] " +:+ b)), s)) /\
  (forall msg s',
      _request_helper sv url data (Some headers) verify s
      = (Raise (OutputRequestFailure msg), s') ->
      exists u c b, answer = UrlRaise (TE_HTTPError u c b)) /\
  (forall reason,
      answer = UrlRaise (TE_URLError reason) ->
      _request_helper sv url data (Some headers) verify s
      = (Raise (URLError reason), s)) /\
  (forall name,
      answer = UrlRaise (TE_Other name) ->
      _request_helper sv url data (Some headers) verify s
      = (Raise (OtherError name), s)).
Proof.
  intros answer. rewrite request_helper_run. fold answer.
  repeat split.
  - by intros u c b ->.
  - intros msg s'. destruct answer as [resp|[u c b|reason|name]]; try done.
    eauto.
  - by intros reason ->.
  - by intros name ->.
Qed.

Lemma request_helper_translates_http_errors_witness :
  _request_helper (S:=unit) Example.sv "https://hooks.example/missing" "{}"
    (Some []) false tt
  = (Raise (OutputRequestFailure
              "Failed to send to https://hooks.example/missing - [404] no such hook"),
     tt).
Proof.
  apply (proj1 (request_helper_translates_http_errors Example.sv
                  "https://hooks.example/missing" "{}" [] false tt)
           "https://hooks.example/missing" 404 "no such hook").
  vm_compute. reflexivity.
Defined.

(** * Further properties of the code *)

(** ** More on the qualifier and the bucket name *)

Lemma underscores_to_dots_clean (s : string) :
  PyStr.mem "_" (underscores_to_dots s) = false.
Proof.
  unfold underscores_to_dots.
  induction s as [|c s IH]; [done|]. cbn [PyStr.map PyStr.mem].
  destruct (decide (c = "_"%char)) as [->|Hne].
  - by rewrite decide_False.
  - rewrite decide_False by congruence. done.
Qed.

Lemma underscores_to_dots_id (s : string) :
  PyStr.mem "_" s = false -> underscores_to_dots s = s.
Proof.
  unfold underscores_to_dots.
  induction s as [|c s IH]; [done|]. cbn [PyStr.map PyStr.mem].
  destruct (decide ("_"%char = c)) as [<-|Hne]; [done|].
  intros H. rewrite decide_False by congruence. by rewrite IH.
Qed.

(** A string without the first character of [old] holds no [old]. *)
Lemma replace_from_absent c (old new s : string) :
  PyStr.mem c s = false ->
  PyStr.replace_from (String c old) new 0 s = s.
Proof.
  induction s as [|x s IH]; [done|]. cbn [PyStr.mem].
  destruct (decide (c = x)) as [<-|Hne]; [done|]. intros H.
  rewrite replace_from_keep, IH; [done..|].
  cbn. destruct (ascii_dec c x); [done|reflexivity].
Qed.

Lemma format_prefix_mem (q : string) :
  PyStr.mem "_" (_format_prefix q) = false.
Proof.
  unfold _format_prefix. rewrite replace_underscores.
  apply underscores_to_dots_clean.
Qed.

Lemma format_prefix_fixed (q : string) :
  PyStr.mem "_" q = false -> _format_prefix q = q.
Proof.
  intros H. unfold _format_prefix, suffix_token, PyStr.replace at 2.
  rewrite replace_from_absent by done. rewrite replace_underscores.
  by apply underscores_to_dots_id.
Qed.

(** X1: [_format_prefix] leaves no underscore: what it returns can be part of
    a bucket name. *)
Theorem format_prefix_no_underscore (q : string) :
  PyStr.mem "_" (_format_prefix q) = false.
Proof. apply format_prefix_mem. Qed.

(** X2: a qualifier without underscores is returned as it is. *)
Theorem format_prefix_unchanged (q : string) :
  PyStr.mem "_" q = false -> _format_prefix q = q.
Proof. apply format_prefix_fixed. Qed.

Lemma format_prefix_unchanged_witness :
  _format_prefix "prod.east" = "prod.east".
Proof. apply (format_prefix_unchanged "prod.east"). reflexivity. Defined.

(** X3: formatting a formatted qualifier changes nothing. *)
Theorem format_prefix_idempotent (q : string) :
  _format_prefix (_format_prefix q) = _format_prefix q.
Proof. apply format_prefix_fixed, format_prefix_mem. Qed.

Lemma mem_append c (a b : string) :
  PyStr.mem c (a +:+ b) = PyStr.mem c a || PyStr.mem c b.
Proof.
  induction a as [|x a IH]; [done|]. rewrite append_cons. cbn [PyStr.mem].
  by destruct (decide (c = x)).
Qed.

(** X5: the secrets bucket of an instance built by [__init__] is the formatted
    qualifier followed by [.streamalert.secrets], and no underscore
    occurs in it. *)
Theorem secrets_bucket_name_clean (c : output_class) (region q : string) :
  get_secrets_bucket_name (__init__ c region q)
  = _format_prefix q +:+ ".streamalert.secrets" /\
  PyStr.mem "_" (get_secrets_bucket_name (__init__ c region q)) = false.
Proof.
  split; [done|].
  unfold get_secrets_bucket_name, _format_s3_bucket, __init__. cbn [s3_prefix].
  rewrite mem_append, format_prefix_mem. reflexivity.
Qed.

(** *** The token does not overlap itself *)

Lemma prefix_nil_r (a : string) : String.prefix a "" = true -> a = "".
Proof. by destruct a. Qed.

Lemma prefix_cons_inv a (x : string) b (y : string) :
  String.prefix (String a x) (String b y) = true ->
  a = b /\ String.prefix x y = true.
Proof. cbn. by destruct (ascii_dec a b). Qed.

(** A prefix of [p +:+ s] is a prefix of [p], or runs over [p] into [s]. *)
Lemma prefix_append_cases (a p s : string) :
  String.prefix a (p +:+ s) = true ->
  String.prefix a p = true \/
  exists x, x <> "" /\ a = p +:+ x /\ String.prefix x s = true.
Proof.
  revert a. induction p as [|c p IH]; intros a H.
  - destruct a as [|d a]; [by left|]. right. by exists (String d a).
  - destruct a as [|d a]; [by left|]. rewrite append_cons in H.
    apply prefix_cons_inv in H as [-> H].
    destruct (IH _ H) as [Hp|(x & Hx & -> & Hs)].
    + left. cbn. by destruct (ascii_dec c c).
    + right. by exists x.
Qed.

(** A prefix of [t +:+ r] that is not longer than [t] is a prefix of [t]. *)
Lemma prefix_append_short (x t r : string) :
  String.prefix x (t +:+ r) = true ->
  (String.length x <= String.length t)%nat ->
  String.prefix x t = true.
Proof.
  revert t. induction x as [|c x IH]; intros t H Hlen; [by destruct t|].
  destruct t as [|d t]; [cbn in Hlen; lia|].
  rewrite append_cons in H. apply prefix_cons_inv in H as [-> H].
  cbn. destruct (ascii_dec d d); [|done]. apply IH; [done|]. cbn in Hlen. lia.
Qed.

(** Read off [tail]: no end piece of it starts [t]. *)
Lemma no_border_check_sound (t tail p x : string) :
  PyStr.no_border_from t tail = true ->
  tail = p +:+ x -> x <> "" -> String.prefix x t = false.
Proof.
  revert tail. induction p as [|c p IH]; intros tail Hc ->.
  - intros Hx. destruct x as [|d x]; [done|].
    rewrite append_nil_l in Hc. cbn [PyStr.no_border_from] in Hc.
    apply andb_true_iff in Hc as [Hc _]. by apply negb_true_iff in Hc.
  - rewrite append_cons in Hc. cbn [PyStr.no_border_from] in Hc.
    apply andb_true_iff in Hc as [_ Hc]. by apply (IH _ Hc).
Qed.

(** The suffix token has no piece that is both its end and its start. *)
Lemma suffix_token_border_free (p x : string) :
  suffix_token = p +:+ x -> p <> "" -> x <> "" ->
  String.prefix x suffix_token = false.
Proof.
  intros Hs Hp Hx. destruct p as [|c p]; [done|].
  apply (no_border_check_sound suffix_token
           "streamalert_alert_processor" p x); [by vm_compute| |done].
  rewrite append_cons in Hs. unfold suffix_token in Hs. by injection Hs.
Qed.

(** Where the token does not start in [p], it does not start in [p]
    followed by the token either. *)
Lemma token_not_across (c : ascii) (p r : string) :
  String.prefix suffix_token (String c p) = false ->
  String.prefix suffix_token (String c p +:+ suffix_token +:+ r) = false.
Proof.
  intros Hp. apply not_true_is_false. intros H.
  apply prefix_append_cases in H as [H|(x & Hx & Heq & Hs)]; [congruence|].
  apply prefix_append_short in Hs; cycle 1.
  { apply (f_equal String.length) in Heq. rewrite append_length in Heq.
    cbn [String.length] in Heq. lia. }
  by rewrite (suffix_token_border_free (String c p) x) in Hs.
Qed.

Lemma remove_token_append (p r : string) :
  PyStr.replace suffix_token "" (p +:+ suffix_token +:+ r)
  = PyStr.replace suffix_token "" p +:+ PyStr.replace suffix_token "" r.
Proof.
  change (PyStr.replace suffix_token "") with
    (PyStr.replace_from suffix_token "" 0).
  remember (String.length p) as n eqn:Hn.
  revert p Hn. induction (lt_wf n) as [n _ IH]. intros p ->.
  destruct p as [|c p].
  - rewrite append_nil_l, replace_from_hit by done. done.
  - destruct (String.prefix suffix_token (String c p)) eqn:Hp.
    + destruct (prefix_split _ _ Hp) as [p' Hp']. rewrite Hp', append_assoc.
      rewrite !replace_from_hit by done. rewrite !append_nil_l.
      eapply IH; [|done]. rewrite Hp', append_length. cbn. lia.
    + rewrite (replace_from_keep _ _ _ _ Hp).
      pose proof (token_not_across c p r Hp) as Hx.
      rewrite append_cons in Hx |- *.
      rewrite (replace_from_keep _ _ _ _ Hx), append_cons. f_equal.
      eapply IH; [|done]. cbn. lia.
Qed.

Lemma underscores_to_dots_append (a b : string) :
  underscores_to_dots (a +:+ b)
  = underscores_to_dots a +:+ underscores_to_dots b.
Proof.
  unfold underscores_to_dots. induction a as [|c a IH]; [done|].
  rewrite append_cons. cbn [PyStr.map]. by rewrite IH, append_cons.
Qed.

(** X4: a token between two pieces falls out, and the pieces are formatted
    each on its own. *)
Theorem format_prefix_around_token (p r : string) :
  _format_prefix (p +:+ suffix_token +:+ r)
  = _format_prefix p +:+ _format_prefix r.
Proof.
  unfold _format_prefix.
  rewrite remove_token_append, !replace_underscores.
  apply underscores_to_dots_append.
Qed.

(** X19: the suffix token at the end of a qualifier is always taken off:
    a qualifier followed by the token is formatted as the qualifier
    alone. *)
Theorem format_prefix_strips_suffix (p : string) :
  _format_prefix (p +:+ suffix_token) = _format_prefix p.
Proof.
  unfold _format_prefix.
  replace (p +:+ suffix_token) with (p +:+ suffix_token +:+ "")
    by (by rewrite append_nil_r).
  rewrite remove_token_append.
  change (PyStr.replace suffix_token "" "") with "".
  by rewrite append_nil_r.
Qed.

(** ** More on the credential store *)

Section MoreCredentials.

Variable sv : services.

(** Lines 89 to 105, run: the outcome is that of the [open]. *)
Lemma load_cached_run self loc w :
  load_cached sv self loc w
  = match open loc wb w with
    | (Ret _, w1) => (Raise (IOError "File not open for reading"), w1)
    | (Raise e, w1) => (Raise e, w1)
    end.
Proof.
  unfold load_cached. rewrite run_bind. unfold with_open at 1.
  rewrite run_bind.
  destruct (open loc wb w) as [[f|e] w1] eqn:Ho; [|done].
  apply open_wb_ret in Ho as (-> & -> & _). done.
Qed.

(** [_load_creds] after its first line, run: every way it can go. *)
Lemma load_creds_run self descriptor w w0 :
  _local_temp_dir sv w = (Ret (temp_dir sv), w0) ->
  let loc := cred_location sv self descriptor in
  _load_creds sv self descriptor w
  = if OS.exists_ (fs w0) loc then
      match open loc wb w0 with
      | (Ret _, w1) => (Raise (IOError "File not open for reading"), w1)
      | (Raise e, w1) => (Raise e, w1)
      end
    else
      match open loc wb w0 with
      | (Raise e, _) => (Raise e, w0)
      | (Ret _, _) =>
          match s3_download sv (region self) (get_secrets_bucket_name self)
                  (output_cred_name self descriptor) with
          | S3Body _ =>
              (Raise (IOError "File not open for reading"),
               mkWorld (<[loc := File ""]> (fs w0)) (log w0)
                 (download_request self descriptor :: s3_requests w0)
                 (kms_requests w0) (readonly_dirs w0))
          | S3ClientError response =>
              (Ret None,
               mkWorld (<[loc := File ""]> (fs w0))
                 (log w0 ++ [download_error_record self descriptor response])
                 (download_request self descriptor :: s3_requests w0)
                 (kms_requests w0) (readonly_dirs w0))
          end
      end.
Proof.
  intros Ht loc. rewrite load_creds_unfold, Ht. cbv zeta.
  fold (cred_location sv self descriptor). fold loc.
  destruct (OS.exists_ (fs w0) loc) eqn:Hex; cbn [negb].
  { apply load_cached_run. }
  destruct (open loc wb w0) as [[f|e] w0'] eqn:Ho.
  2:{ by rewrite (get_creds_open_raises _ _ _ _ _ _ _ Ho). }
  destruct (s3_download sv _ _ _) as [data|response] eqn:Hs.
  - rewrite (get_creds_body _ _ _ _ _ _ _ _ Ho Hs).
    cbn [truthy from_option id negb]. rewrite load_cached_run.
    assert (loc <> []) as Hnil by (by intros E; rewrite E in Hex).
    erewrite open_wb_file; cycle 1.
    { cbn [fs]. destruct loc; [done|]. cbn. apply lookup_insert_eq. }
    unfold with_fs. cbn. by rewrite insert_insert_eq.
  - by rewrite (get_creds_client_error _ _ _ _ _ _ _ _ Ho Hs).
Qed.

(** X11: [_kms_decrypt] never raises on what KMS answers: it sends the one
    request, and returns the plaintext with nothing logged, or [None]
    with the client error logged once. Files and S3 are not touched. *)
Theorem kms_decrypt_absorbs_client_errors self data w :
  exists r w',
    _kms_decrypt sv self data w = (Ret r, w') /\
    fs w' = fs w /\ s3_requests w' = s3_requests w /\
    kms_requests w' = (region self, data) :: kms_requests w /\
    match kms_decrypt sv (region self) data with
    | KmsPlaintext plaintext => r = Some plaintext /\ log w' = log w
    | KmsClientError response =>
        r = None /\
        log w' = log w ++
                 [mkLog ERROR
                    ("an error occurred during credentials decryption: "
                     +:+ response)]
    end.
Proof.
  unfold _kms_decrypt, try_except, client_decrypt. rewrite !run_bind.
  cbv beta iota delta [modify].
  destruct (kms_decrypt sv (region self) data) as [plaintext|response].
  - eexists _, _. split; [reflexivity|]. done.
  - eexists _, _. split; [reflexivity|]. done.
Qed.

(** X9: a download that S3 answers with the body: [_get_creds_from_s3]
    returns [True], the file at the location holds the body and nothing
    of what it held before, no other path changes, and nothing is
    logged. *)
Theorem get_creds_from_s3_stores_body self loc descriptor w f w0 data :
  open loc wb w = (Ret f, w0) ->
  s3_download sv (region self) (get_secrets_bucket_name self)
    (output_cred_name self descriptor) = S3Body data ->
  exists w',
    _get_creds_from_s3 sv self loc descriptor w = (Ret (Some true), w') /\
    fs w' !! loc = Some (File data) /\
    (forall p, p <> loc -> fs w' !! p = fs w !! p) /\
    log w' = log w /\
    s3_requests w' = download_request self descriptor :: s3_requests w.
Proof.
  intros Ho Hs. eexists. split; [by eapply get_creds_body|]. cbn.
  split; [apply lookup_insert_eq|]. split; [|done].
  intros p Hp. by rewrite lookup_insert_ne.
Qed.

(** X7: running [_local_temp_dir] again after it returned changes nothing
    and returns the same path. *)
Theorem local_temp_dir_idempotent w r w' :
  _local_temp_dir sv w = (Ret r, w') ->
  _local_temp_dir sv w' = (Ret r, w').
Proof.
  intros H. apply local_temp_dir_ret in H as [-> H].
  apply local_temp_dir_present. rewrite isdir_temp.
  by apply bool_decide_eq_true_2.
Qed.

(** X12: one call of [_load_creds] sends S3 one request at most, and logs a
    record only when that request ended in a client error, in which case
    it returns [None]. *)
Theorem load_creds_one_request self descriptor w r w' :
  _load_creds sv self descriptor w = (r, w') ->
  (s3_requests w' = s3_requests w /\ log w' = log w) \/
  (s3_requests w' = download_request self descriptor :: s3_requests w /\
   match s3_download sv (region self) (get_secrets_bucket_name self)
           (output_cred_name self descriptor) with
   | S3Body _ => log w' = log w
   | S3ClientError response =>
       log w' = log w ++ [download_error_record self descriptor response] /\
       r = Ret None
   end).
Proof.
  intros Hrun.
  destruct (_local_temp_dir sv w) as [[t|e] w0] eqn:Ht; cycle 1.
  { rewrite load_creds_unfold, Ht in Hrun. injection Hrun as _ <-.
    apply local_temp_dir_only_fs in Ht as (? & ? & _). by left. }
  pose proof (local_temp_dir_only_fs _ _ _ _ Ht) as (El & Es & _).
  pose proof (local_temp_dir_ret _ _ _ _ Ht) as [-> _].
  rewrite (load_creds_run _ _ _ _ Ht) in Hrun. cbv zeta in Hrun.
  destruct (OS.exists_ (fs w0) _);
    destruct (open _ wb w0) as [[f|e] w1] eqn:Ho;
    try (apply open_wb_ret in Ho as (_ & -> & _));
    try (apply open_raise in Ho as (-> & _)).
  - injection Hrun as _ <-. by left.
  - injection Hrun as _ <-. by left.
  - right. destruct (s3_download sv _ _ _);
      injection Hrun as <- <-; cbn; by rewrite Es, El.
  - injection Hrun as _ <-. by left.
Qed.

(** X14: a blob that was downloaded is lost at once: the call that fetched it
    empties the file and raises the [IOError] of line 90, and every later
    call finds the empty file, sends nothing to S3 and raises again. *)
Theorem load_creds_download_is_lost self descriptor w r1 w1 data :
  _load_creds sv self descriptor w = (r1, w1) ->
  s3_requests w1 <> s3_requests w ->
  s3_download sv (region self) (get_secrets_bucket_name self)
    (output_cred_name self descriptor) = S3Body data ->
  r1 = Raise (IOError "File not open for reading") /\
  fs w1 !! cred_location sv self descriptor = Some (File "") /\
  _load_creds sv self descriptor w1
  = (Raise (IOError "File not open for reading"), w1).
Proof.
  intros Hrun Hreq Hs.
  destruct (_local_temp_dir sv w) as [[t|e] w0] eqn:Ht; cycle 1.
  { rewrite load_creds_unfold, Ht in Hrun. injection Hrun as _ <-.
    apply local_temp_dir_only_fs in Ht as (_ & ? & _). done. }
  pose proof (local_temp_dir_only_fs _ _ _ _ Ht) as (_ & Es & _).
  pose proof (local_temp_dir_ret _ _ _ _ Ht) as [-> Hdir].
  rewrite (load_creds_run _ _ _ _ Ht) in Hrun. cbv zeta in Hrun.
  set (loc := cred_location sv self descriptor) in *.
  destruct (OS.exists_ (fs w0) loc) eqn:Hex.
  { destruct (open loc wb w0) as [[f|e] w'] eqn:Ho;
      [apply open_wb_ret in Ho as (_ & -> & _)
      |apply open_raise in Ho as (-> & _)];
      injection Hrun as _ <-; cbn in Hreq; congruence. }
  destruct (open loc wb w0) as [[f|e] w'] eqn:Ho; cycle 1.
  { injection Hrun as _ <-. congruence. }
  rewrite Hs in Hrun. injection Hrun as <- <-. cbn [fs].
  assert (loc <> temp_dir sv) as Hne.
  { intros E. by rewrite E, exists_temp, Hdir in Hex. }
  assert (loc <> []) as Hnil by (by intros E; rewrite E in Hex).
  split; [done|]. split; [apply lookup_insert_eq|].
  erewrite load_creds_cached.
  - unfold with_fs. cbn. by rewrite insert_insert_eq.
  - cbn. by rewrite lookup_insert_ne.
  - fold loc. cbn. destruct loc; [done|]. cbn. apply lookup_insert_eq.
Qed.

End MoreCredentials.

(** ** The merge of the defaults *)

(** [d.update(other)] is [other], later items first, laid over [d]. *)
Lemma dict_update_union (d : gmap string pyval)
  (other : list (string * pyval)) :
  dict_update d other = list_to_map (reverse other) ∪ d.
Proof.
  unfold dict_update. revert d.
  induction other as [|[k v] other IH]; intros d; cbn [foldl].
  - change (reverse []) with (@nil (string * pyval)). cbn [list_to_map foldr].
    by rewrite (left_id_L ∅ (∪)).
  - rewrite IH, reverse_cons, list_to_map_app. cbn [list_to_map foldr].
    rewrite <- (assoc_L (∪)). f_equal. cbn.
    by rewrite <- insert_union_l, (left_id_L ∅ (∪)).
Qed.

(** X15: lines 100 to 105: with defaults that are not empty, the result is
    the parsed mapping with every default laid over it, the default
    winning where both have the key and every other key keeping its
    parsed value; a parsed document that is not an object makes the
    merge raise an [AttributeError], whose message for a list is
    ['list' object has no attribute 'update']. *)
Theorem add_defaults_overlay {S} (self : StreamOutputBase)
  (d : gmap string pyval) (defaults : list (string * pyval)) (s : S) :
  get_default_properties (cls self) = Some defaults ->
  defaults <> [] ->
  NoDup defaults.*1 ->
  (exists m,
      add_defaults self (PDict d) s = (Ret (PDict m), s) /\
      (forall k v, (k, v) ∈ defaults -> m !! k = Some v) /\
      (forall k, k ∉ defaults.*1 -> m !! k = d !! k)) /\
  (forall j,
      (forall fields, j <> JObj fields) ->
      exists msg,
        add_defaults self (of_json j) s = (Raise (AttributeError msg), s)) /\
  (forall l,
      add_defaults self (of_json (JArr l)) s
      = (Raise (AttributeError "'list' object has no attribute 'update'"),
         s)).
Proof.
  intros Hdef Hne Hnd. unfold add_defaults. rewrite Hdef.
  destruct defaults as [|kv defaults]; [done|]. cbn [truthy_defaults default].
  split; [|split; [|done]]; cycle 1.
  { intros j Hj. destruct j; try (eexists; reflexivity). by destruct (Hj fields). }
  eexists. split; [reflexivity|]. rewrite dict_update_union. split.
  - intros k v Hin. apply lookup_union_Some_l.
    apply elem_of_list_to_map_1.
    + by rewrite fmap_reverse, reverse_Permutation.
    + by apply elem_of_reverse.
  - intros k Hk. rewrite lookup_union_r; [done|].
    apply not_elem_of_list_to_map_1.
    by rewrite fmap_reverse, elem_of_reverse.
Qed.

Lemma add_defaults_overlay_witness :
  exists m,
    add_defaults Example.slack
      (PDict {[ "a" := VJson (JNum 1); "b" := VJson (JNum 2) ]}) tt
    = (Ret (PDict m), tt) /\
    m !! "b" = Some (VJson (JNum 9)) /\
    m !! "a" = Some (VJson (JNum 1)).
Proof.
  destruct (add_defaults_overlay Example.slack
              {[ "a" := VJson (JNum 1); "b" := VJson (JNum 2) ]}
              [("b", VJson (JNum 9))] tt)
    as [(m & Hrun & Hdef & Hkeep) _].
  - reflexivity.
  - discriminate.
  - apply (NoDup_singleton "b").
  - exists m. split; [exact Hrun|]. split.
    + apply Hdef. apply list_elem_of_here.
    + rewrite Hkeep; [vm_compute; reflexivity|].
      apply not_elem_of_cons. split; [discriminate|apply not_elem_of_nil].
Defined.

(** ** More on the credential name *)

(** X6: for one service, two descriptors that are not empty and differ get
    different credential names. *)
Theorem output_cred_name_injective (self : StreamOutputBase)
  (d1 d2 : string) :
  d1 <> "" -> d2 <> "" -> d1 <> d2 ->
  output_cred_name self (Some d1) <> output_cred_name self (Some d2).
Proof.
  intros H1 H2 Hne. unfold output_cred_name.
  destruct d1 as [|c1 d1], d2 as [|c2 d2]; try done.
  cbn [truthy_str default from_option]. intros H.
  apply append_inj_l in H. by apply (append_inj_l "_") in H.
Qed.

Lemma output_cred_name_injective_witness :
  output_cred_name Example.slack (Some "alerts")
  <> output_cred_name Example.slack (Some "ops").
Proof.
  apply (output_cred_name_injective Example.slack "alerts" "ops");
    discriminate.
Defined.

(** ** More on the HTTP helper *)

(** X16: called without headers, [_request_helper] fails before anything is
    sent: [urllib2.Request] walks the items of [None]. The error is not
    an [HTTPError], so it is not translated. *)
Theorem request_helper_without_headers {S} (sv : services)
  (url data : string) (verify : bool) (s : S) :
  _request_helper sv url data None verify s
  = (Raise (AttributeError "'NoneType' object has no attribute 'items'"), s).
Proof. reflexivity. Qed.

(** X17: [_request_helper] returns exactly when the transport returns, with
    the response of the transport and the state as it was; the
    transport is asked with no context when [verify] is true and with a
    context that checks neither host name nor certificate when it is
    false. *)
Theorem request_helper_returns_iff {S} (sv : services) (url data : string)
  (headers : list (string * string)) (verify : bool) (s s' : S)
  (resp : response) :
  _request_helper sv url data (Some headers) verify s = (Ret resp, s') <->
  urlopen sv (mkRequest url data headers)
    (if verify then None
     else Some {| check_hostname := false; verify_mode := CERT_NONE |})
  = UrlResponse resp /\ s' = s.
Proof.
  rewrite request_helper_run.
  replace (request_context verify) with
    (if verify then None
     else Some {| check_hostname := false; verify_mode := CERT_NONE |})
    by (by destruct verify).
  destruct (urlopen sv _ _) as [r|[u c b|reason|name]]; split;
    try (intros [= <- <-]; done); try (by intros [? _]).
  by intros [[= <-] ->].
Qed.

(** ** More on the configuration helper *)

(** X18: properties without a ['descriptor']: [format_output_config] raises
    the [KeyError], and the configuration and every list that existed
    are as they were. *)
Theorem format_output_config_missing_descriptor (self : StreamOutputBase)
  (config : positive) (props : list (string * OutputProperty))
  (st : store) (d : gmap string positive) :
  dicts st !! config = Some d ->
  od_lookup props "descriptor" = None ->
  exists st',
    format_output_config self config props st
    = (Raise (KeyError "descriptor"), st') /\
    dicts st' = dicts st /\
    (forall b l, lists st !! b = Some l -> lists st' !! b = Some l).
Proof.
  intros Hd Hp. unfold format_output_config.
  rewrite run_bind, new_list_run.
  set (a0 := fresh (dom (dicts st) ∪ dom (lists st))).
  set (st1 := mkStore (dicts st) (<[a0 := []]> (lists st))).
  rewrite run_bind, (dict_get_run _ _ _ st1 d Hd).
  rewrite run_bind. unfold getitem at 1. rewrite Hp.
  eexists. split; [reflexivity|]. split; [done|].
  intros b l Hb. cbn. rewrite lookup_insert_ne; [done|].
  intros <-. pose proof (fresh_not_list st) as Hf. fold a0 in Hf. congruence.
Qed.

Lemma format_output_config_missing_descriptor_witness :
  exists st',
    format_output_config Example.slack 1%positive [] Example.st_config
    = (Raise (KeyError "descriptor"), st') /\
    dicts st' = dicts Example.st_config /\
    (forall b l,
        lists Example.st_config !! b = Some l -> lists st' !! b = Some l).
Proof.
  apply (format_output_config_missing_descriptor Example.slack 1%positive []
           Example.st_config {[ "slack" := 2%positive ]}).
  - vm_compute. reflexivity.
  - reflexivity.
Defined.

(** ** The further properties, run on the deployment of [Example] *)

Lemma get_creds_from_s3_stores_body_witness :
  exists w',
    _get_creds_from_s3 Example.sv Example.slack
      ["tmp"; "stream_alert_secrets"; "slack_alerts"] (Some "alerts")
      Example.w_cached = (Ret (Some true), w') /\
    fs w' !! ["tmp"; "stream_alert_secrets"; "slack_alerts"]
    = Some (File "ciphertext") /\
    log w' = [].
Proof.
  destruct (get_creds_from_s3_stores_body Example.sv Example.slack
              ["tmp"; "stream_alert_secrets"; "slack_alerts"] (Some "alerts")
              Example.w_cached
              (mkFile ["tmp"; "stream_alert_secrets"; "slack_alerts"] wb)
              (snd (open ["tmp"; "stream_alert_secrets"; "slack_alerts"] wb
                      Example.w_cached))
              "ciphertext")
    as (w' & Hrun & Hfile & _ & Hlog & _).
  - vm_compute. reflexivity.
  - vm_compute. reflexivity.
  - exists w'. split; [exact Hrun|]. split; [exact Hfile|exact Hlog].
Defined.

Lemma local_temp_dir_idempotent_witness :
  _local_temp_dir Example.sv
    (snd (_local_temp_dir Example.sv Example.w_conflict))
  = (Ret ["tmp"; "stream_alert_secrets"],
     snd (_local_temp_dir Example.sv Example.w_conflict)).
Proof.
  apply (local_temp_dir_idempotent Example.sv Example.w_conflict).
  vm_compute. reflexivity.
Defined.

Lemma load_creds_one_request_witness :
  let run :=
    _load_creds Example.sv Example.slack (Some "other") Example.w_empty in
  (s3_requests (snd run) = [] /\ log (snd run) = []) \/
  (s3_requests (snd run)
   = [download_request Example.slack (Some "other")] /\
   log (snd run)
   = [download_error_record Example.slack (Some "other") "NoSuchKey"] /\
   fst run = Ret None).
Proof.
  apply (load_creds_one_request Example.sv Example.slack (Some "other")
           Example.w_empty).
  apply surjective_pairing.
Defined.

Lemma load_creds_download_is_lost_witness :
  let run :=
    _load_creds Example.sv Example.slack (Some "alerts") Example.w_empty in
  fst run = Raise (IOError "File not open for reading") /\
  fs (snd run) !! ["tmp"; "stream_alert_secrets"; "slack_alerts"]
  = Some (File "") /\
  _load_creds Example.sv Example.slack (Some "alerts") (snd run)
  = (Raise (IOError "File not open for reading"), snd run).
Proof.
  apply (load_creds_download_is_lost Example.sv Example.slack (Some "alerts")
           Example.w_empty _ _ "ciphertext" (surjective_pairing _)).
  - vm_compute. discriminate.
  - vm_compute. reflexivity.
Defined.
